(** * maestro-ollama-2: orchestration loop, continuation and materializer

    A shallow embedding of [src/maestro-ollama-2.py].

    - Python [str] values are lists of Unicode code points ([list N]).
    - The completion service ([client.chat]) is an oracle: a function of the
      calls made so far and of the current request.  Every call is logged.
    - Console output is a list of events; printing always succeeds (the
      markup of the panels is not parsed).
    - The file system is a finite map from absolute paths (lists of names) to
      nodes; it is idealised: no symbolic links, no permissions, no limits on
      names, contents or space.
    - Python recursion and [while True] are bounded by fuel; running out of
      fuel is a result of its own ([OutOfFuel]), distinct from returning and
      from raising. *)

From Stdlib Require Import String Ascii NArith List Lia DecimalString.
From stdpp Require Import gmap list.

Set Default Proof Using "Type".
Open Scope list_scope.

(** ** Python strings *)

Abbreviation pystr := (list N).

Module PyStr.

(** A literal of the source, read as its code points (ASCII literals only). *)
Definition str (s : string) : pystr :=
  List.map N_of_ascii (list_ascii_of_string s).

Definition nl : pystr := [10%N].

(** [str.isspace] on one code point (CPython's [_PyUnicode_IsWhitespace]). *)
Definition isspace (c : N) : bool :=
  ((9 <=? c) && (c <=? 13) || (28 <=? c) && (c <=? 32)
   || (c =? 133) || (c =? 160) || (c =? 5760)
   || (8192 <=? c) && (c <=? 8202)
   || (c =? 8232) || (c =? 8233) || (c =? 8239) || (c =? 8287)
   || (c =? 12288))%N.

Fixpoint lstrip (s : pystr) : pystr :=
  match s with
  | [] => []
  | c :: s' => if isspace c then lstrip s' else s
  end.

Definition rstrip (s : pystr) : pystr := rev (lstrip (rev s)).

(** [s.strip()] *)
Definition strip (s : pystr) : pystr := rstrip (lstrip s).

(** Truth value of a string: empty is false. *)
Definition truthy (s : pystr) : bool :=
  match s with [] => false | _ => true end.

Definition opt_truthy (o : option pystr) : bool :=
  match o with Some s => truthy s | None => false end.

Fixpoint eqb (a b : pystr) : bool :=
  match a, b with
  | [], [] => true
  | x :: a', y :: b' => (x =? y)%N && eqb a' b'
  | _, _ => false
  end.

(** [s.startswith(p)] *)
Fixpoint startswith (p s : pystr) : bool :=
  match p, s with
  | [], _ => true
  | x :: p', y :: s' => (x =? y)%N && startswith p' s'
  | _ :: _, [] => false
  end.

(** [s.endswith(p)] *)
Definition endswith (p s : pystr) : bool := startswith (rev p) (rev s).

(** [sub in s] *)
Fixpoint contains (sub s : pystr) : bool :=
  startswith sub s ||
  match s with
  | [] => false
  | _ :: s' => contains sub s'
  end.

(** Index of the leftmost occurrence ([s.find(sub)], [None] for -1). *)
Fixpoint find (sub s : pystr) : option nat :=
  if startswith sub s then Some 0
  else match s with
       | [] => None
       | _ :: s' => option_map S (find sub s')
       end.

(** [s.replace(old, new)] for a non-empty [old]: occurrences are taken left to
    right and do not overlap.  [skip] counts the characters of a matched
    occurrence that are still to be dropped. *)
Fixpoint replace_from (old new : pystr) (skip : nat) (s : pystr) : pystr :=
  match s with
  | [] => []
  | c :: s' =>
      match skip with
      | S k => replace_from old new k s'
      | O =>
          if startswith old s
          then new ++ replace_from old new (length old - 1) s'
          else c :: replace_from old new 0 s'
      end
  end.

(** With an empty [old], Python inserts [new] before every character and at
    the end. *)
Definition replace (old new s : pystr) : pystr :=
  match old with
  | [] => new ++ flat_map (fun c => c :: new) s
  | _ :: _ => replace_from old new 0 s
  end.

(** [sep.join(parts)] *)
Fixpoint join (sep : pystr) (parts : list pystr) : pystr :=
  match parts with
  | [] => []
  | [p] => p
  | p :: rest => p ++ sep ++ join sep rest
  end.

(** [s.split(sep)] for a one-character separator. *)
Fixpoint split_on (sep : N) (s : pystr) : list pystr :=
  match s with
  | [] => [[]]
  | c :: s' =>
      if (c =? sep)%N then [] :: split_on sep s'
      else match split_on sep s' with
           | h :: t => (c :: h) :: t
           | [] => [[c]]
           end
  end.

(** Decimal rendering of a natural number ([str(i)] in an f-string). *)
Definition of_nat (n : nat) : pystr :=
  str (NilEmpty.string_of_uint (Nat.to_uint n)).

End PyStr.
Import PyStr.

(** ** The world the script runs in *)

(** The three roles of [MODEL_IDENTIFIERS]. *)
Inductive role := Orchestrator | SubAgent | Refiner.

(** One call of [client.chat]: a single user message, and the text of the
    reply ([response['message']['content']]). *)
Record call := Call {
  c_role : role;
  c_model : pystr;
  c_content : pystr;
  c_response : pystr
}.

(** What [console.print] shows. *)
Inductive event :=
| CallingOrchestrator
| FileContentPanel (file_content : pystr)
| OrchestratorPanel (response_text : pystr)
| TruncationWarning
| SubAgentResultPanel (response_text : pystr)
| CallingRefiner
| FinalOutputPanel (response_text : pystr)
| ProjectFolderCreated (project_name : pystr)
| ProjectFolderError (project_name : pystr)
| FolderCreated (path : pystr)
| FolderCreationError (path : pystr)
| FileCreated (path : pystr)
| FileCreationError (path : pystr)
| MissingCodeContent (key : pystr)
| JSONParsingError
| InvalidJSONString (json_string : pystr)
| RefinedFinalOutput (refined_output : pystr)
| ExchangeLogSaved (filename : pystr).

(** File-system nodes. *)
Inductive node := Dir | File (content : pystr).

Record world := World {
  w_fs : gmap (list pystr) node;
  w_console : list event;
  w_calls : list call
}.

(** The exceptions the code of the script raises itself or lets through in
    this model.  Those of the libraries and of the interpreter (markup errors
    of the console, invalid file names, the recursion limit, unbound names)
    are not modelled. *)
Inductive exn := ValueError | AttributeError | OSError.

Inductive result (A : Type) :=
| Ret (a : A)
| Raise (e : exn)
| OutOfFuel.
Arguments Ret {A} a.
Arguments Raise {A} e.
Arguments OutOfFuel {A}.

(** Computations: state passing over the world, with exceptions and fuel. *)
Definition M (A : Type) : Type := world -> world * result A.

Definition ret {A} (a : A) : M A := fun w => (w, Ret a).
Definition raise {A} (e : exn) : M A := fun w => (w, Raise e).
Definition out_of_fuel {A} : M A := fun w => (w, OutOfFuel).

Definition bind {A B} (m : M A) (k : A -> M B) : M B :=
  fun w =>
    match m w with
    | (w', Ret a) => k a w'
    | (w', Raise e) => (w', Raise e)
    | (w', OutOfFuel) => (w', OutOfFuel)
    end.

Declare Scope monad_scope.
Delimit Scope monad_scope with monad.
Notation "x <- m ;; k" := (bind m (fun x => k))
  (at level 100, m at next level, right associativity) : monad_scope.
Notation "m ;; k" := (bind m (fun _ => k))
  (at level 100, right associativity) : monad_scope.
Open Scope monad_scope.

Definition console_print (e : event) : M unit :=
  fun w => (World (w_fs w) (w_console w ++ [e]) (w_calls w), Ret tt).

(** ** Agents *)

Section Agents.

(** The completion service: the reply to a request, given the calls made so
    far. *)
Context (chat : list call -> pystr -> pystr -> pystr).

(** The role identifiers.  The functions of the source read them as the names
    [ORCHESTRATOR_MODEL], [SUBAGENT_MODEL] and [REFINER_MODEL]; they are
    configuration, bound here as parameters ([MODEL_IDENTIFIERS] below gives
    the values of the source's table). *)
Context (ORCHESTRATOR_MODEL SUBAGENT_MODEL REFINER_MODEL : pystr).

(** [client.chat(model=..., messages=[{"role": "user", "content": ...}])]
    followed by [response['message']['content']]. *)
Definition client_chat (r : role) (model content : pystr) : M pystr :=
  fun w =>
    let response := chat (w_calls w) model content in
    (World (w_fs w) (w_console w)
           (w_calls w ++ [Call r model content response]),
     Ret response).

Definition generate_ollama_prompt
    (objective : pystr) (file_content : option pystr)
    (previous_results_text : pystr) : pystr :=
  str "Based on the following objective"
  ++ (if opt_truthy file_content then str " and file content" else [])
  ++ str ", and the previous sub-task results (if any), please break down the objective into the next sub-task, and create a concise and detailed prompt for a subagent so it can execute that task. Focus solely on the objective and avoid engaging in casual conversation with the subagent."
  ++ nl ++ nl
  ++ str "When dealing with code tasks, make sure to check the code for errors and provide fixes and support as part of the next sub-task. If you find any bugs or have suggestions for better code, please include them in the next sub-task prompt."
  ++ nl ++ nl
  ++ str "Please assess if the objective has been fully achieved. If the previous sub-task results comprehensively address all aspects of the objective, include the phrase 'The task is complete:' at the beginning of your response. If the objective is not yet fully achieved, break it down into the next sub-task and create a concise and detailed prompt for a subagent to execute that task."
  ++ nl ++ nl
  ++ str "Objective: " ++ objective
  ++ (match file_content with
      | Some fc => if truthy fc then nl ++ str "File content:" ++ nl ++ fc else []
      | None => []
      end)
  ++ nl ++ nl ++ str "Previous sub-task results:" ++ nl ++ previous_results_text.

Definition send_ollama_request
    (r : role) (model objective : pystr) (file_content : option pystr)
    (previous_results_text : pystr) : M pystr :=
  client_chat r model
    (generate_ollama_prompt objective file_content previous_results_text).

Definition display_file_content_panel (file_content : option pystr) : M unit :=
  match file_content with
  | Some fc => if truthy fc then console_print (FileContentPanel fc) else ret tt
  | None => ret tt
  end.

Definition display_response_panel (response_text : pystr) : M unit :=
  console_print (OrchestratorPanel response_text).

(** ["\n".join(previous_results) if previous_results else "None"] *)
Definition previous_results_text_of (previous_results : list pystr) : pystr :=
  match previous_results with
  | [] => str "None"
  | _ :: _ => join nl previous_results
  end.

Definition opus_orchestrator
    (objective : pystr) (file_content : option pystr)
    (previous_results : list pystr) : M (pystr * option pystr) :=
  console_print CallingOrchestrator ;;
  let previous_results_text := previous_results_text_of previous_results in
  display_file_content_panel file_content ;;
  response_text <- send_ollama_request Orchestrator ORCHESTRATOR_MODEL
                     objective file_content previous_results_text ;;
  display_response_panel response_text ;;
  ret (response_text, file_content).

(** One entry of [haiku_tasks]: [{"task": ..., "result": ...}]. *)
Record TaskRecord := { task : pystr; task_result : pystr }.

Definition continuation_prompt : pystr :=
  str "Continuing from the previous answer, please complete the response.".

Definition render_task (t : TaskRecord) : pystr :=
  str "Task: " ++ task t ++ nl ++ str "Result: " ++ task_result t.

Definition previous_tasks_summary (previous_haiku_tasks : list TaskRecord) : pystr :=
  str "Previous Haiku tasks:" ++ nl ++ join nl (List.map render_task previous_haiku_tasks).

(** The prompt the sub-agent sends, from its arguments. *)
Definition haiku_full_prompt
    (prompt : pystr) (previous_haiku_tasks : list TaskRecord)
    (continuation : bool) : pystr :=
  let prompt := if continuation then continuation_prompt else prompt in
  previous_tasks_summary previous_haiku_tasks ++ nl ++ nl ++ prompt.

(** [len(response_text) >= 4000] *)
Definition THRESHOLD : nat := 4000.
Definition may_be_truncated (response_text : pystr) : bool :=
  Nat.leb THRESHOLD (length response_text).

Fixpoint haiku_sub_agent
    (fuel : nat) (prompt : pystr) (previous_haiku_tasks : list TaskRecord)
    (continuation : bool) : M pystr :=
  match fuel with
  | O => out_of_fuel
  | S fuel' =>
      let full_prompt := haiku_full_prompt prompt previous_haiku_tasks continuation in
      if negb (truthy (strip full_prompt)) then raise ValueError
      else
        response_text <- client_chat SubAgent SUBAGENT_MODEL full_prompt ;;
        response_text <-
          (if may_be_truncated response_text then
             console_print TruncationWarning ;;
             continuation_response_text <-
               haiku_sub_agent fuel' continuation_prompt previous_haiku_tasks true ;;
             ret (response_text ++ continuation_response_text)
           else ret response_text) ;;
        console_print (SubAgentResultPanel response_text) ;;
        ret response_text
  end.

Definition refine_prompt (objective : pystr) (sub_task_results : list pystr) : pystr :=
  str "Objective: " ++ objective ++ nl ++ nl ++ str "Sub-task results:" ++ nl
  ++ join nl sub_task_results ++ nl ++ nl
  ++ str "Please review and refine the sub-task results into a cohesive final output. Add any missing information or details as needed."
  ++ nl ++ nl
  ++ str "When working on code projects, ONLY AND ONLY IF THE PROJECT IS CLEARLY A CODING ONE, please provide the following:"
  ++ nl ++ nl
  ++ str "1. Project Name: Create a concise and appropriate project name that fits the project based on what it's creating. The project name should be no more than 20 characters long."
  ++ nl ++ nl
  ++ str "2. Folder Structure: Provide the folder structure as a valid JSON object, where each key represents a folder or file, and nested keys represent subfolders. Use null values for files. Ensure the JSON is properly formatted without any syntax errors. Please make sure all keys are enclosed in double quotes, and ensure objects are correctly encapsulated with braces, separating items with commas as necessary. Wrap the JSON object in <folder_structure> tags."
  ++ nl ++ nl
  ++ str "3. Code Files: For each code file, include ONLY the file name, NEVER EVER USE THE FILE PATH OR ANY OTHER FORMATTING. YOU ONLY USE THE FOLLOWING format 'Filename: <filename>' followed by the code block enclosed in triple backticks, with the language identifier after the opening backticks, like this:"
  ++ nl ++ nl ++ str "python" ++ nl ++ str "<code>" ++ nl ++ nl ++ nl
  ++ str "Focus solely on the objective and avoid engaging in casual conversation. Ensure the final output is clear, concise, and addresses all aspects of the objective."
  ++ [8203%N].

(** [filename] and [projectname] are passed along and never read; so is
    [continuation]. *)
Fixpoint opus_refine
    (fuel : nat) (objective : pystr) (sub_task_results : list pystr)
    (filename projectname : pystr) (continuation : bool) : M pystr :=
  match fuel with
  | O => out_of_fuel
  | S fuel' =>
      console_print CallingRefiner ;;
      response_text <- client_chat Refiner REFINER_MODEL
                         (refine_prompt objective sub_task_results) ;;
      response_text <-
        (if may_be_truncated response_text then
           console_print TruncationWarning ;;
           continuation_response_text <-
             opus_refine fuel' objective sub_task_results filename projectname true ;;
           ret (response_text ++ continuation_response_text)
         else ret response_text) ;;
      console_print (FinalOutputPanel response_text) ;;
      ret response_text
  end.

(** ** The orchestration loop *)

Definition MARKER : pystr := str "The task is complete:".

(** The variables the [while True] loop reads and writes. *)
Record loop_vars := {
  task_exchanges : list (pystr * pystr);
  haiku_tasks : list TaskRecord;
  file_content_for_haiku : option pystr
}.

(** Where one iteration leaves the loop: [break] with [final_output], or back
    to the top with the updated variables. *)
Inductive loop_state :=
| DONE (final_output : pystr)
| AWAITING_NEXT_STEP (vars : loop_vars).

Definition is_empty {A} (l : list A) : bool :=
  match l with [] => true | _ => false end.

(** The instruction handed to the sub-agent. *)
Definition sub_task_prompt_of
    (opus_result : pystr) (file_content_for_haiku : option pystr)
    (haiku_tasks : list TaskRecord) : pystr :=
  match file_content_for_haiku with
  | Some fc =>
      if truthy fc && is_empty haiku_tasks
      then opus_result ++ nl ++ nl ++ str "File content:" ++ nl ++ fc
      else opus_result
  | None => opus_result
  end.

(** Lines 249-256: the call of the orchestrator, and the value of
    [file_content_for_haiku] after it (assigned on the first iteration only). *)
Definition ask_orchestrator
    (objective : pystr) (file_content : option pystr)
    (v : loop_vars) : M (pystr * option pystr) :=
  let previous_results := List.map snd (task_exchanges v) in
  if is_empty (task_exchanges v)
  then opus_orchestrator objective file_content previous_results
  else r <- opus_orchestrator objective None previous_results ;;
       ret (fst r, file_content_for_haiku v).

Definition loop_body
    (fuel : nat) (objective : pystr) (file_content : option pystr)
    (v : loop_vars) : M loop_state :=
  r <- ask_orchestrator objective file_content v ;;
  let opus_result := fst r in
  let file_content_for_haiku := snd r in
  if contains MARKER opus_result
  then ret (DONE (strip (replace MARKER [] opus_result)))
  else
    let sub_task_prompt :=
      sub_task_prompt_of opus_result file_content_for_haiku (haiku_tasks v) in
    sub_task_result <- haiku_sub_agent fuel sub_task_prompt (haiku_tasks v) false ;;
    ret (AWAITING_NEXT_STEP
           {| task_exchanges := task_exchanges v ++ [(sub_task_prompt, sub_task_result)];
              haiku_tasks := haiku_tasks v
                             ++ [{| task := sub_task_prompt; task_result := sub_task_result |}];
              file_content_for_haiku := None |}).

(** [while True: ...]; returns [final_output] and the variables at [break]. *)
Fixpoint orchestration_loop
    (fuel : nat) (objective : pystr) (file_content : option pystr)
    (v : loop_vars) : M (pystr * loop_vars) :=
  match fuel with
  | O => out_of_fuel
  | S fuel' =>
      s <- loop_body fuel' objective file_content v ;;
      match s with
      | DONE final_output => ret (final_output, v)
      | AWAITING_NEXT_STEP v' => orchestration_loop fuel' objective file_content v'
      end
  end.

Definition initial_vars : loop_vars :=
  {| task_exchanges := []; haiku_tasks := []; file_content_for_haiku := None |}.

End Agents.

(** The table of the source. *)
Definition MODEL_IDENTIFIERS : list (pystr * pystr) :=
  [(str "ORCHESTRATOR_MODEL", str "llama3:70b-instruct");
   (str "SUBAGENT_MODEL", str "llama3:instruct");
   (str "REFINER_MODEL", str "llama3:70b-instruct")].

(** ** The file system *)

Module FS.

Definition sep : N := 47%N.

(** [os.path.join(a, b)] (posixpath). *)
Definition join (a b : pystr) : pystr :=
  if startswith [sep] b then b
  else if negb (truthy a) || endswith [sep] a then a ++ b
  else a ++ [sep] ++ b.

(** How path resolution reads one component. *)
Inductive step := Stay | Up | Name.

Definition classify (c : pystr) : step :=
  if PyStr.eqb c [] || PyStr.eqb c (str ".") then Stay
  else if PyStr.eqb c (str "..") then Up
  else Name.

Definition parent (d : list pystr) : list pystr := removelast d.

Section WithCwd.

(** The working directory of the process (an existing directory). *)
Context (cwd : list pystr).

Definition start_of (p : pystr) : list pystr :=
  if startswith [sep] p then [] else cwd.

(** Resolving a list of components to a directory, from [cur]. *)
Inductive resolved :=
| Reached (d : list pystr)
| NotADirectory
| NoSuchEntry.

Fixpoint walk (fs : gmap (list pystr) node) (cur : list pystr)
    (cs : list pystr) : resolved :=
  match cs with
  | [] => Reached cur
  | c :: cs' =>
      match classify c with
      | Stay => walk fs cur cs'
      | Up => walk fs (parent cur) cs'
      | Name =>
          match fs !! (cur ++ [c]) with
          | Some Dir => walk fs (cur ++ [c]) cs'
          | Some (File _) => NotADirectory
          | None => NoSuchEntry
          end
      end
  end.

(** [os.makedirs(p, exist_ok=True)]: missing directories are created along
    the way; the walk stops with an [OSError] ([false]) at a file, leaving
    what it created. *)
Fixpoint makedirs_from (fs : gmap (list pystr) node) (cur : list pystr)
    (cs : list pystr) : gmap (list pystr) node * bool :=
  match cs with
  | [] => (fs, true)
  | c :: cs' =>
      match classify c with
      | Stay => makedirs_from fs cur cs'
      | Up => makedirs_from fs (parent cur) cs'
      | Name =>
          match fs !! (cur ++ [c]) with
          | Some Dir => makedirs_from fs (cur ++ [c]) cs'
          | Some (File _) => (fs, false)
          | None => makedirs_from (<[cur ++ [c] := Dir]> fs) (cur ++ [c]) cs'
          end
      end
  end.

Definition makedirs (p : pystr) (fs : gmap (list pystr) node)
    : gmap (list pystr) node * bool :=
  match p with
  | [] => (fs, false)
  | _ :: _ => makedirs_from fs (start_of p) (split_on sep p)
  end.

(** [with open(p, 'w') as file: file.write(content)]: the directory part must
    resolve, the last component must be a name that is not a directory;
    [None] stands for the [OSError]. *)
Definition write_file (p content : pystr) (fs : gmap (list pystr) node)
    : option (gmap (list pystr) node) :=
  match p with
  | [] => None
  | _ :: _ =>
      let cs := split_on sep p in
      match walk fs (start_of p) (removelast cs) with
      | Reached d =>
          let name := List.last cs [] in
          match classify name with
          | Name =>
              match fs !! (d ++ [name]) with
              | Some Dir => None
              | _ => Some (<[d ++ [name] := File content]> fs)
              end
          | _ => None
          end
      | _ => None
      end
  end.

End WithCwd.
End FS.

(** ** The materializer *)

(** What [json.loads] returns. *)
#[local] Unset Elimination Schemes.
Inductive json :=
| JNull
| JBool (b : bool)
| JNumber (literal : pystr)
| JString (s : pystr)
| JArray (items : list json)
| JObject (items : list (pystr * json)).
#[local] Set Elimination Schemes.

Definition is_dict (v : json) : bool :=
  match v with JObject _ => true | _ => false end.

(** [next((code for file, code in code_blocks if file == key), None)] *)
Fixpoint next_code (key : pystr) (code_blocks : list (pystr * pystr)) : option pystr :=
  match code_blocks with
  | [] => None
  | (file, code) :: rest =>
      if PyStr.eqb file key then Some code else next_code key rest
  end.

Section Materializer.

Context (cwd : list pystr).

Definition os_makedirs (p : pystr) : M bool :=
  fun w =>
    let r := FS.makedirs cwd p (w_fs w) in
    (World (fst r) (w_console w) (w_calls w), Ret (snd r)).

Definition open_write (p content : pystr) : M bool :=
  fun w =>
    match FS.write_file cwd p content (w_fs w) with
    | Some fs' => (World fs' (w_console w) (w_calls w), Ret true)
    | None => (w, Ret false)
    end.

(** The [else] branch of the walk: an entry whose value is not a dict. *)
Definition create_file (path key : pystr) (code_blocks : list (pystr * pystr)) : M unit :=
  match next_code key code_blocks with
  | Some code_content =>
      if truthy code_content then
        ok <- open_write path code_content ;;
        if ok then console_print (FileCreated path)
        else console_print (FileCreationError path)
      else console_print (MissingCodeContent key)
  | None => console_print (MissingCodeContent key)
  end.

(** [structure.items()] exists on dicts only. *)
Fixpoint create_folders_and_files
    (current_path : pystr) (structure : json)
    (code_blocks : list (pystr * pystr)) {struct structure} : M unit :=
  match structure with
  | JObject items =>
      (fix each (items : list (pystr * json)) : M unit :=
         match items with
         | [] => ret tt
         | (key, value) :: rest =>
             let path := FS.join current_path key in
             (match value with
              | JObject _ =>
                  ok <- os_makedirs path ;;
                  if ok then
                    console_print (FolderCreated path) ;;
                    create_folders_and_files path value code_blocks
                  else console_print (FolderCreationError path)
              | _ => create_file path key code_blocks
              end) ;;
             each rest
         end) items
  | _ => raise AttributeError
  end.

Definition create_folder_structure
    (project_name : pystr) (folder_structure : json)
    (code_blocks : list (pystr * pystr)) : M unit :=
  ok <- os_makedirs project_name ;;
  (if ok then console_print (ProjectFolderCreated project_name)
   else console_print (ProjectFolderError project_name)) ;;
  create_folders_and_files project_name folder_structure code_blocks.

End Materializer.

(** ** After the loop: refinement, parsing, materialization, log *)

Definition OPEN_TAG : pystr := str "<folder_structure>".
Definition CLOSE_TAG : pystr := str "</folder_structure>".

(** [re.search(r'<folder_structure>(.*?)</folder_structure>', s, re.DOTALL)]
    and [group(1)]: the text between the leftmost opening tag and the first
    closing tag after it. *)
Definition search_folder_structure (refined_output : pystr) : option pystr :=
  match find OPEN_TAG refined_output with
  | Some i =>
      let rest := drop (i + length OPEN_TAG) refined_output in
      match find CLOSE_TAG rest with
      | Some j => Some (take j rest)
      | None => None
      end
  | None => None
  end.

Fixpoint up_to_newline (s : pystr) : pystr :=
  match s with
  | [] => []
  | c :: s' => if (c =? 10)%N then [] else c :: up_to_newline s'
  end.

(** [re.search] with the pattern of the project name, and [group(1)]: the
    rest of the line after the leftmost [Project Name: ] header. *)
Definition search_project_name (refined_output : pystr) : option pystr :=
  match find (str "Project Name: ") refined_output with
  | Some i => Some (up_to_newline (drop (i + length (str "Project Name: ")) refined_output))
  | None => None
  end.

Fixpoint render_exchanges (i : nat) (task_exchanges : list (pystr * pystr)) : pystr :=
  match task_exchanges with
  | [] => []
  | (prompt, result) :: rest =>
      str "Task " ++ of_nat i ++ str ":" ++ nl
      ++ str "Prompt: " ++ prompt ++ nl
      ++ str "Result: " ++ result ++ nl ++ nl
      ++ render_exchanges (S i) rest
  end.

Definition exchange_log_of
    (objective : pystr) (task_exchanges : list (pystr * pystr))
    (refined_output : pystr) : pystr :=
  str "Objective: " ++ objective ++ nl ++ nl
  ++ repeat 61%N 40 ++ str " Task Breakdown " ++ repeat 61%N 40 ++ nl ++ nl
  ++ render_exchanges 1 task_exchanges
  ++ repeat 61%N 40 ++ str " Refined Final Output " ++ repeat 61%N 40 ++ nl ++ nl
  ++ refined_output.

Section Main.

Context (chat : list call -> pystr -> pystr -> pystr).
Context (ORCHESTRATOR_MODEL SUBAGENT_MODEL REFINER_MODEL : pystr).
Context (cwd : list pystr).

(** [json.loads]; [None] stands for [json.JSONDecodeError]. *)
Context (json_loads : pystr -> option json).

(** [re.findall] with the pattern of the code files: the (filename, code)
    pairs of the text, in order. *)
Context (findall_code_blocks : pystr -> list (pystr * pystr)).

(** Lines 290-302: the folder structure of the refined output. *)
Definition extract_folder_structure (refined_output : pystr) : M json :=
  match search_folder_structure refined_output with
  | Some group =>
      let json_string := strip group in
      match json_loads json_string with
      | Some folder_structure => ret folder_structure
      | None =>
          console_print JSONParsingError ;;
          console_print (InvalidJSONString json_string) ;;
          ret (JObject [])
      end
  | None => ret (JObject [])
  end.

(** Lines 285-288. *)
Definition project_name_of (sanitized_objective refined_output : pystr) : pystr :=
  match search_project_name refined_output with
  | Some group => strip group
  | None => sanitized_objective
  end.

(** Lines 311-334: the exchange log is written to a file of the working
    directory; a failure of [open] is not caught. *)
Definition write_exchange_log
    (objective sanitized_objective timestamp : pystr)
    (task_exchanges : list (pystr * pystr)) (refined_output : pystr) : M unit :=
  let max_length := 25 in
  let truncated_objective :=
    if Nat.ltb max_length (length sanitized_objective)
    then take max_length sanitized_objective else sanitized_objective in
  let filename := timestamp ++ str "_" ++ truncated_objective ++ str ".md" in
  let exchange_log := exchange_log_of objective task_exchanges refined_output in
  console_print (RefinedFinalOutput refined_output) ;;
  ok <- open_write cwd filename exchange_log ;;
  if ok then console_print (ExchangeLogSaved filename) else raise OSError.

(** Lines 285-334: everything after the refiner has answered.
    [sanitized_objective] is the objective with every run of non-word
    characters replaced by an underscore, and [timestamp] the formatted clock
    reading; both are inputs here. *)
Definition after_refine
    (objective sanitized_objective timestamp : pystr)
    (task_exchanges : list (pystr * pystr)) (refined_output : pystr) : M unit :=
  let project_name := project_name_of sanitized_objective refined_output in
  folder_structure <- extract_folder_structure refined_output ;;
  let code_blocks := findall_code_blocks refined_output in
  create_folder_structure cwd project_name folder_structure code_blocks ;;
  write_exchange_log objective sanitized_objective timestamp task_exchanges refined_output.

(** Lines 244-334: the script from the loop on. *)
Definition main
    (fuel : nat) (objective : pystr) (file_content : option pystr)
    (sanitized_objective timestamp : pystr) : M unit :=
  r <- orchestration_loop chat ORCHESTRATOR_MODEL SUBAGENT_MODEL fuel
         objective file_content initial_vars ;;
  let task_exchanges := task_exchanges (snd r) in
  refined_output <- opus_refine chat REFINER_MODEL fuel objective
                      (List.map snd task_exchanges) timestamp sanitized_objective false ;;
  after_refine objective sanitized_objective timestamp task_exchanges refined_output.

End Main.

(** ** Reading a run *)

(** The replies the orchestrator role gave, in order. *)
Definition orchestrator_calls (w : world) : list call :=
  List.filter (fun c => match c_role c with Orchestrator => true | _ => false end)
              (w_calls w).

Definition returned {A} (r : result A) : bool :=
  match r with Ret _ => true | _ => false end.

(** No leading and no trailing whitespace. *)
Definition trimmed (s : pystr) : Prop :=
  (forall c t, s = c :: t -> isspace c = false) /\
  (forall t c, s = t ++ [c] -> isspace c = false).

(** The block appended to the first instruction. *)
Definition seed_block (fc : pystr) : pystr :=
  nl ++ nl ++ str "File content:" ++ nl ++ fc.

(** The world a run starts in. *)
Definition initial_world (fs : gmap (list pystr) node) : world := World fs [] [].

(** A key of the tree that holds no path separator. *)
Definition no_separator (k : pystr) : bool := negb (existsb (N.eqb FS.sep) k).

(** No key of the tree, at any depth of its directories, holds a separator. *)
Fixpoint plain_tree (v : json) : bool :=
  match v with
  | JObject items =>
      (fix all (items : list (pystr * json)) : bool :=
         match items with
         | [] => true
         | (k, v') :: rest => no_separator k && plain_tree v' && all rest
         end) items
  | _ => true
  end.

(** The file system [fs'] keeps what [fs] has: directories stay directories,
    files stay files, and a file that holds the code of its own name keeps
    it. *)
Definition grows (code_blocks : list (pystr * pystr))
    (fs fs' : gmap (list pystr) node) : Prop :=
  forall q,
    (fs !! q = Some Dir -> fs' !! q = Some Dir)
    /\ (forall c, fs !! q = Some (File c) ->
          exists c', fs' !! q = Some (File c')
                     /\ (next_code (List.last q []) code_blocks = Some c -> c' = c)).

(** The components that move the walk. *)
Definition moving (cs : list pystr) : list pystr :=
  List.filter (fun c => match FS.classify c with FS.Stay => false | _ => true end) cs.

(** Resolving [p] does not stop at a missing entry. *)
Definition settled (cwd : list pystr) (p : pystr) (fs : gmap (list pystr) node) : Prop :=
  FS.walk fs (FS.start_of cwd p) (split_on FS.sep p) <> FS.NoSuchEntry.

(** The whole materializer, on the file system alone. *)
Definition materialize (cwd : list pystr) (project_name : pystr) (tree : json)
    (code_blocks : list (pystr * pystr)) (fs : gmap (list pystr) node)
    : gmap (list pystr) node :=
  w_fs (fst (create_folder_structure cwd project_name tree code_blocks (initial_world fs))).

(** The first instruction with the seed block appended, the later ones as
    they are. *)
Definition seeded (fc : pystr) (instructions : list pystr) : list pystr :=
  match instructions with
  | [] => []
  | first :: rest => (first ++ seed_block fc) :: rest
  end.

(** The prompts of the first [n] orchestrator calls, given the results of the
    sub-tasks: only the first one is built with the file content. *)
Definition orchestrator_prompts
    (objective : pystr) (file_content : option pystr)
    (results : list pystr) (n : nat) : list pystr :=
  List.map
    (fun i => generate_ollama_prompt objective
                (match i with O => file_content | S _ => None end)
                (previous_results_text_of (take i results)))
    (seq 0 n).

Definition has_marker (c : call) : bool := contains MARKER (c_response c).

Definition task_of (e : pystr * pystr) : TaskRecord :=
  {| task := fst e; task_result := snd e |}.

(** The instructions dispatched for a list of orchestrator replies. *)
Definition dispatched (file_content : option pystr) (replies : list pystr) : list pystr :=
  match replies with
  | [] => []
  | first :: rest => sub_task_prompt_of first file_content [] :: rest
  end.

(** What holds of the variables and the log at the top of the loop. *)
Definition loop_invariant
    (objective : pystr) (file_content : option pystr)
    (v : loop_vars) (w : world) : Prop :=
  haiku_tasks v = List.map task_of (task_exchanges v)
  /\ (task_exchanges v <> [] -> file_content_for_haiku v = None)
  /\ List.map fst (task_exchanges v)
     = dispatched file_content (List.map c_response (orchestrator_calls w))
  /\ List.map c_content (orchestrator_calls w)
     = orchestrator_prompts objective file_content
         (List.map snd (task_exchanges v)) (length (task_exchanges v))
  /\ Forall (fun c => has_marker c = false) (orchestrator_calls w).

(** What holds when the loop stops, for a given amount of fuel. *)
Definition loop_outcome
    (objective : pystr) (file_content : option pystr)
    (out : world * result (pystr * loop_vars)) : Prop :=
  match out with
  | (w, Ret (final_output, v)) =>
      List.map fst (task_exchanges v)
      = dispatched file_content (removelast (List.map c_response (orchestrator_calls w)))
      /\ List.map c_content (orchestrator_calls w)
         = orchestrator_prompts objective file_content
             (List.map snd (task_exchanges v)) (S (length (task_exchanges v)))
      /\ exists earlier c,
           orchestrator_calls w = earlier ++ [c]
           /\ has_marker c = true
           /\ Forall (fun c => has_marker c = false) earlier
           /\ final_output = strip (replace MARKER [] (c_response c))
  | (w, Raise e) => False
  | (w, OutOfFuel) => Forall (fun c => has_marker c = false) (orchestrator_calls w)
  end.

(** The requests the sub-agent role received, in order. *)
Definition subagent_calls (w : world) : list call :=
  List.filter (fun c => match c_role c with SubAgent => true | _ => false end)
              (w_calls w).

(** The first [n] requests of the dispatch of [instruction] with the history
    [tasks]: the request that carries the instruction, then continuations. *)
Definition dispatch_requests (tasks : list TaskRecord) (instruction : pystr) (n : nat)
    : list pystr :=
  match n with
  | O => []
  | S m => haiku_full_prompt instruction tasks false
           :: repeat (haiku_full_prompt continuation_prompt tasks true) m
  end.

(** The requests of the dispatches of [exchanges], one after the other, the
    i-th with [nth i ns] requests and with the exchanges before it as its
    history. *)
Fixpoint subagent_requests (history : list TaskRecord)
    (exchanges : list (pystr * pystr)) (ns : list nat) : list pystr :=
  match exchanges, ns with
  | e :: exchanges', n :: ns' =>
      dispatch_requests history (fst e) n
      ++ subagent_requests (history ++ [task_of e]) exchanges' ns'
  | _, _ => []
  end.

(** ** Start-up: the models of the service *)

(** What [print] shows while the models are checked. *)
Inductive ollama_event :=
| CheckingForModel (model_id : pystr)
| PullingModel (model_id : pystr).

(** The service is the set of the models it has: [ollama.show] raises
    [ResponseError] for a model that is not in it, and [ollama.pull] adds the
    model.  The dict is walked in the order of its items. *)
Fixpoint check_and_pull_models (models : list (pystr * pystr)) (installed : gset pystr)
    : gset pystr * list ollama_event :=
  match models with
  | [] => (installed, [])
  | (model_name, model_id) :: rest =>
      if decide (model_id ∈ installed) then
        let r := check_and_pull_models rest installed in
        (fst r, CheckingForModel model_id :: snd r)
      else
        let r := check_and_pull_models rest ({[model_id]} ∪ installed) in
        (fst r, CheckingForModel model_id :: PullingModel model_id :: snd r)
  end.

(** The models pulled, in order. *)
Definition pulled (events : list ollama_event) : list pystr :=
  flat_map (fun e => match e with PullingModel m => [m] | _ => [] end) events.

(** ** What the materializer leaves behind *)

(** Nothing of [fs] is lost in [fs']: directories stay directories, and a
    file stays a file, with its content or with one of the code bodies. *)
Definition keeps (code_blocks : list (pystr * pystr))
    (fs fs' : gmap (list pystr) node) : Prop :=
  forall q,
    (fs !! q = Some Dir -> fs' !! q = Some Dir)
    /\ (forall c, fs !! q = Some (File c) ->
          exists c', fs' !! q = Some (File c')
                     /\ (c' = c \/ In c' (List.map snd code_blocks))).

(** A name of one component: no separator, and not empty, [.] or [..]. *)
Definition plain_name (k : pystr) : bool :=
  no_separator k && match FS.classify k with FS.Name => true | _ => false end.

(** The keys of every dict of the tree are plain names, each used once. *)
Fixpoint well_named (v : json) : bool :=
  match v with
  | JObject items =>
      (fix all (items : list (pystr * json)) : bool :=
         match items with
         | [] => true
         | (k, v') :: rest =>
             plain_name k && negb (existsb (PyStr.eqb k) (List.map fst rest))
             && well_named v' && all rest
         end) items
  | _ => true
  end.

(** [structure[key]], when the key is there. *)
Fixpoint lookup_key (key : pystr) (items : list (pystr * json)) : option json :=
  match items with
  | [] => None
  | (k, v) :: rest => if PyStr.eqb k key then Some v else lookup_key key rest
  end.

(** The file an entry that is not a dict stands for: its code, when there is
    some. *)
Definition file_for (key : pystr) (code_blocks : list (pystr * pystr)) : option node :=
  match next_code key code_blocks with
  | Some code => if truthy code then Some (File code) else None
  | None => None
  end.

(** What a tree puts at a path relative to its own directory. *)
Fixpoint node_at (code_blocks : list (pystr * pystr)) (v : json) (rel : list pystr)
    {struct rel} : option node :=
  match v, rel with
  | JObject _, [] => Some Dir
  | JObject items, key :: rel' =>
      match lookup_key key items with
      | Some (JObject sub) => node_at code_blocks (JObject sub) rel'
      | Some _ => match rel' with [] => file_for key code_blocks | _ :: _ => None end
      | None => None
      end
  | _, _ => None
  end.

(** Nothing is at or below the entries [keys] of the directory [d]. *)
Definition fresh_at (d : list pystr) (keys : list pystr)
    (fs : gmap (list pystr) node) : Prop :=
  forall k rel, In k keys -> fs !! (d ++ k :: rel) = None.

(** From [fs] to [fs'], the entries of [items] have been put in the directory
    [d], and nothing else has changed. *)
Definition placed (code_blocks : list (pystr * pystr)) (d : list pystr)
    (items : list (pystr * json)) (fs fs' : gmap (list pystr) node) : Prop :=
  (forall k rel, In k (List.map fst items) ->
     fs' !! (d ++ k :: rel) = node_at code_blocks (JObject items) (k :: rel))
  /\ (forall q, (forall k rel, In k (List.map fst items) -> q <> d ++ k :: rel) ->
        fs' !! q = fs !! q).

(** [p] resolves to the directory [d]. *)
Definition resolves (cwd : list pystr) (p : pystr) (fs : gmap (list pystr) node)
    (d : list pystr) : Prop :=
  FS.walk fs (FS.start_of cwd p) (split_on FS.sep p) = FS.Reached d.

(** ** Chains of continuations *)

(** The service answers the requests of [exchanges], one after the other,
    with the replies paired to them, each call being logged before the
    next. *)
Fixpoint answers (chat : list call -> pystr -> pystr -> pystr)
    (calls : list call) (r : role) (model : pystr)
    (exchanges : list (pystr * pystr)) : Prop :=
  match exchanges with
  | [] => True
  | (request, reply) :: rest =>
      chat calls model request = reply
      /\ answers chat (calls ++ [Call r model request reply]) r model rest
  end.

(** The log entries of a list of (request, reply) pairs. *)
Definition logged (r : role) (model : pystr) (exchanges : list (pystr * pystr))
    : list call :=
  List.map (fun e => Call r model (fst e) (snd e)) exchanges.

(** ** Concrete inputs *)

Module Examples.

(** A completion service that answers its n-th call with the n-th text of a
    list (and with the empty text afterwards). *)
Definition scripted (replies : list pystr) : list call -> pystr -> pystr -> pystr :=
  fun calls _ _ => nth (length calls) replies [].

Definition orchestrator_model : pystr := str "llama3:70b-instruct".
Definition subagent_model : pystr := str "llama3:instruct".
Definition refiner_model : pystr := str "llama3:70b-instruct".

Definition w0 : world := initial_world ∅.

Definition long_reply : pystr := repeat 97%N 4000.

(** A reply in which deleting the marker joins two pieces into the marker. *)
Definition nested_marker : pystr := str "The task is The task is complete:complete:".

(** A tree whose first key names a file inside the directory of its second. *)
Definition late_parent_tree : json :=
  JObject [(str "d/f", JNull); (str "d", JObject [])].
Definition late_parent_code : list (pystr * pystr) := [(str "d/f", str "x")].

Definition small_tree : json :=
  JObject [(str "src", JObject [(str "main.py", JNull)]); (str "README.md", JNull)].
Definition small_code : list (pystr * pystr) :=
  [(str "main.py", str "print(1)"); (str "README.md", str "# demo")].

(** A decoder that accepts the two texts used below. *)
Definition decoder (s : pystr) : option json :=
  if PyStr.eqb s (str "[]") then Some (JArray [])
  else if PyStr.eqb s (str "{}") then Some (JObject [])
  else None.

Definition no_code_blocks : pystr -> list (pystr * pystr) := fun _ => [].

(** A service whose call number [2 * n] (counting from 0) is answered with
    the marker, and every other call with a short text. *)
Definition patient (n : nat) : list call -> pystr -> pystr -> pystr :=
  fun calls _ _ => if Nat.eqb (length calls) (2 * n) then MARKER else str "go on".

(** A run of two sub-tasks with seed content. *)
Definition seed : pystr := str "SEED".
Definition two_steps : list call -> pystr -> pystr -> pystr :=
  scripted [str "step one"; str "result one"; str "step two"; str "result two";
            str "The task is complete: done"].
Definition two_steps_run : world * result (pystr * loop_vars) :=
  orchestration_loop two_steps orchestrator_model subagent_model 3
    (str "objective") (Some seed) initial_vars w0.

(** A file entry with empty code, and one with code. *)
Definition empty_code_tree : json := JObject [(str "a.py", JNull)].
Definition empty_code : list (pystr * pystr) := [(str "a.py", [])].
Definition one_file_tree : json := JObject [(str "main.py", JNull)].
Definition one_file_code : list (pystr * pystr) := [(str "main.py", str "print(1)")].
Definition project : pystr := str "p".
Definition project_world : world := initial_world (<[[project] := Dir]> ∅).

(** Refined outputs with a tree that does not decode, and with a list. *)
Definition undecodable_output : pystr :=
  str "Project Name: p" ++ nl ++ str "<folder_structure>oops</folder_structure>".
Definition list_output : pystr :=
  str "Project Name: p" ++ nl ++ str "<folder_structure> [] </folder_structure>".

End Examples.

(** Further concrete inputs. *)
Module MoreExamples.

Import Examples.

Definition always_long : list call -> pystr -> pystr -> pystr :=
  fun _ _ _ => long_reply.

Definition three_replies : list call -> pystr -> pystr -> pystr :=
  scripted [long_reply; long_reply; str "tail"].

(** A run of one sub-task without seed content. *)
Definition one_step : list call -> pystr -> pystr -> pystr :=
  scripted [str "step one"; str "result one"; str "The task is complete: done"].
Definition one_step_run : world * result (pystr * loop_vars) :=
  orchestration_loop one_step orchestrator_model subagent_model 2
    (str "objective") None initial_vars w0.
Definition one_step_vars : loop_vars :=
  match snd one_step_run with
  | Ret (_, v) => v
  | _ => initial_vars
  end.

(** The pieces of a refined output. *)
Definition greeting : pystr := str "Here you go." ++ nl.
Definition padded_name : pystr := str " demo ".
Definition padded_tree : pystr := str " {} ".
Definition farewell : pystr := str " bye".
Definition no_markers : pystr := str "nothing to build".

(** The entries of [small_tree]. *)
Definition small_items : list (pystr * json) :=
  [(str "src", JObject [(str "main.py", JNull)]); (str "README.md", JNull)].

(** A key that is an absolute path. *)
Definition absolute_name : pystr := str "motd".
Definition absolute_code : list (pystr * pystr) := [(FS.sep :: absolute_name, str "x")].

End MoreExamples.

(** * Properties *)

(** ** Strings *)

Section StringFacts.

Lemma startswith_app (p t : pystr) : startswith p (p ++ t) = true.
Proof.
  induction p as [|x p IH]; simpl; [reflexivity|].
  rewrite N.eqb_refl. exact IH.
Qed.

Lemma startswith_inv (p s : pystr) :
  startswith p s = true -> exists t, s = p ++ t.
Proof.
  revert s. induction p as [|x p IH]; intros s H.
  - exists s. reflexivity.
  - destruct s as [|y s]; simpl in H; [discriminate|].
    apply andb_true_iff in H as [Hxy Hp].
    apply N.eqb_eq in Hxy. subst y.
    destruct (IH _ Hp) as [t ->]. exists t. reflexivity.
Qed.

Lemma eqb_eq (a b : pystr) : PyStr.eqb a b = true <-> a = b.
Proof.
  revert b. induction a as [|x a IH]; intros [|y b]; simpl; split;
    try discriminate; try reflexivity; intros H.
  - apply andb_true_iff in H as [Hxy Hab].
    apply N.eqb_eq in Hxy. apply IH in Hab. congruence.
  - injection H as -> ->. rewrite N.eqb_refl. apply IH. reflexivity.
Qed.

Lemma eqb_refl (a : pystr) : PyStr.eqb a a = true.
Proof. apply eqb_eq. reflexivity. Qed.

Lemma eqb_neq (a b : pystr) : PyStr.eqb a b = false <-> a <> b.
Proof.
  split.
  - intros H E. apply eqb_eq in E. congruence.
  - intros H. destruct (PyStr.eqb a b) eqn:E; [|reflexivity].
    apply eqb_eq in E. contradiction.
Qed.

Lemma contains_intro (sub a b : pystr) : contains sub (a ++ sub ++ b) = true.
Proof.
  induction a as [|x a IH]; simpl.
  - destruct (sub ++ b) eqn:E; simpl.
    + destruct sub; [reflexivity|discriminate].
    + rewrite <- E. rewrite startswith_app. reflexivity.
  - rewrite IH. apply orb_true_r.
Qed.

Lemma contains_prefix (sub b : pystr) : contains sub (sub ++ b) = true.
Proof. apply (contains_intro sub [] b). Qed.

Lemma contains_inv (sub s : pystr) :
  contains sub s = true -> exists a b, s = a ++ sub ++ b.
Proof.
  induction s as [|x s IH]; simpl; intros H.
  - rewrite orb_false_r in H. apply startswith_inv in H as [t Ht].
    exists [], t. exact Ht.
  - apply orb_true_iff in H as [H|H].
    + apply startswith_inv in H as [t Ht]. exists [], t. exact Ht.
    + destruct (IH H) as (a & b & ->). exists (x :: a), b. reflexivity.
Qed.

Lemma contains_app_r (sub a s : pystr) :
  contains sub s = true -> contains sub (a ++ s) = true.
Proof.
  intros H. apply contains_inv in H as (x & y & ->).
  rewrite app_assoc. apply contains_intro.
Qed.

(** [lstrip] drops a run of whitespace and nothing else. *)
Lemma lstrip_split (s : pystr) :
  exists sp, s = sp ++ lstrip s /\ Forall (fun c => isspace c = true) sp.
Proof.
  induction s as [|c s (sp & E & F)]; simpl.
  - exists []. split; [reflexivity|constructor].
  - destruct (isspace c) eqn:Hc.
    + exists (c :: sp). split; [simpl; congruence|constructor; assumption].
    + exists []. split; [reflexivity|constructor].
Qed.

Lemma lstrip_head (s : pystr) c t : lstrip s = c :: t -> isspace c = false.
Proof.
  induction s as [|x s IH]; simpl; [discriminate|].
  destruct (isspace x) eqn:Hx; [exact IH|].
  intros E. injection E as -> _. exact Hx.
Qed.

Lemma lstrip_keeps_last (a : pystr) c :
  isspace c = false -> exists t, lstrip (a ++ [c]) = t ++ [c].
Proof.
  intros Hc. induction a as [|x a (t & IH)]; simpl.
  - rewrite Hc. exists []. reflexivity.
  - destruct (isspace x).
    + exists t. exact IH.
    + exists (x :: a). reflexivity.
Qed.

(** [rstrip] keeps a prefix. *)
Lemma rstrip_split (s : pystr) :
  exists sp, s = rstrip s ++ sp /\ Forall (fun c => isspace c = true) sp.
Proof.
  unfold rstrip. destruct (lstrip_split (rev s)) as (sp & E & F).
  exists (rev sp). split.
  - rewrite <- rev_app_distr, <- E, rev_involutive. reflexivity.
  - apply List.Forall_rev. exact F.
Qed.

Lemma rstrip_keeps_head c (s : pystr) :
  isspace c = false -> exists t, rstrip (c :: s) = c :: t.
Proof.
  intros Hc. unfold rstrip. simpl rev.
  destruct (lstrip_keeps_last (rev s) c Hc) as (t & ->).
  exists (rev t). rewrite rev_app_distr. reflexivity.
Qed.

Lemma strip_trimmed (s : pystr) : trimmed (strip s).
Proof.
  unfold strip. split.
  - intros c t E.
    destruct (lstrip s) as [|c0 t0] eqn:L.
    + discriminate.
    + pose proof (lstrip_head _ _ _ L) as Hc0.
      destruct (rstrip_keeps_head c0 t0 Hc0) as (t' & E').
      rewrite E' in E. injection E as <- _. exact Hc0.
  - intros t c E. unfold rstrip in E.
    apply (f_equal (@rev N)) in E.
    rewrite rev_involutive, rev_app_distr in E. simpl in E.
    apply lstrip_head in E. exact E.
Qed.

(** A string that starts with a character that is not whitespace does not
    strip to the empty string. *)
Lemma strip_nonempty c (s : pystr) :
  isspace c = false -> truthy (strip (c :: s)) = true.
Proof.
  intros Hc. unfold strip. simpl. rewrite Hc.
  destruct (rstrip_keeps_head c s Hc) as (t & ->). reflexivity.
Qed.

End StringFacts.

(** ** The agents *)

Arguments str : simpl never.
Arguments may_be_truncated : simpl never.
Arguments strip : simpl never.
Arguments contains : simpl never.
Arguments replace : simpl never.
Arguments generate_ollama_prompt : simpl never.
Arguments refine_prompt : simpl never.
Arguments haiku_full_prompt : simpl never.

(** Unfolds the plumbing of the monad. *)
Ltac monad_unfold :=
  unfold bind, ret, raise, out_of_fuel, console_print, client_chat,
    send_ollama_request, display_response_panel in *.

Section AgentFacts.

Context (chat : list call -> pystr -> pystr -> pystr).
Context (ORCHESTRATOR_MODEL SUBAGENT_MODEL REFINER_MODEL : pystr).

Local Abbreviation haiku := (haiku_sub_agent chat SUBAGENT_MODEL).
Local Abbreviation refine := (opus_refine chat REFINER_MODEL).
Local Abbreviation orchestrator := (opus_orchestrator chat ORCHESTRATOR_MODEL).

Lemma haiku_full_prompt_head prompt tasks continuation :
  exists t, haiku_full_prompt prompt tasks continuation = 80%N :: t.
Proof.
  unfold haiku_full_prompt, previous_tasks_summary.
  change (str "Previous Haiku tasks:") with (80%N :: str "revious Haiku tasks:").
  eexists. reflexivity.
Qed.

Lemma haiku_full_prompt_truthy prompt tasks continuation :
  truthy (strip (haiku_full_prompt prompt tasks continuation)) = true.
Proof.
  destruct (haiku_full_prompt_head prompt tasks continuation) as (t & ->).
  apply strip_nonempty. reflexivity.
Qed.

(** One level of the sub-agent, with the emptiness test resolved. *)
Lemma haiku_step fuel prompt tasks continuation w :
  haiku (S fuel) prompt tasks continuation w =
  let full_prompt := haiku_full_prompt prompt tasks continuation in
  let response_text := chat (w_calls w) SUBAGENT_MODEL full_prompt in
  let w1 := World (w_fs w) (w_console w)
              (w_calls w ++ [Call SubAgent SUBAGENT_MODEL full_prompt response_text]) in
  if may_be_truncated response_text then
    match haiku fuel continuation_prompt tasks true
            (World (w_fs w1) (w_console w1 ++ [TruncationWarning]) (w_calls w1)) with
    | (w2, Ret continuation_response_text) =>
        (World (w_fs w2)
           (w_console w2 ++ [SubAgentResultPanel (response_text ++ continuation_response_text)])
           (w_calls w2),
         Ret (response_text ++ continuation_response_text))
    | (w2, Raise e) => (w2, Raise e)
    | (w2, OutOfFuel) => (w2, OutOfFuel)
    end
  else
    (World (w_fs w1) (w_console w1 ++ [SubAgentResultPanel response_text]) (w_calls w1),
     Ret response_text).
Proof.
  cbn [haiku_sub_agent]. rewrite haiku_full_prompt_truthy. cbn [negb].
  monad_unfold. cbn -[haiku_sub_agent].
  destruct (may_be_truncated _); [|reflexivity].
  cbn -[haiku_sub_agent].
  destruct (haiku_sub_agent _ _ _ _ _ _ _) as [w2 [r|e|]]; reflexivity.
Qed.

Lemma haiku_never_raises fuel : forall prompt tasks continuation w e,
  snd (haiku fuel prompt tasks continuation w) <> Raise e.
Proof.
  induction fuel as [|fuel IH]; intros prompt tasks continuation w e.
  - discriminate.
  - rewrite haiku_step. cbn zeta.
    destruct (may_be_truncated _); [|discriminate].
    match goal with |- context [haiku fuel ?p ?t ?c ?w'] =>
      specialize (IH p t c w'); destruct (haiku fuel p t c w') as [w2 [r|e'|]]
    end; simpl in *; try discriminate.
    intros E. apply (IH e'). reflexivity.
Qed.

(** The sub-agent only adds calls of its own role, and leaves the files. *)
Lemma haiku_calls fuel : forall prompt tasks continuation w,
  exists new,
    w_calls (fst (haiku fuel prompt tasks continuation w)) = w_calls w ++ new
    /\ Forall (fun c => c_role c = SubAgent) new
    /\ w_fs (fst (haiku fuel prompt tasks continuation w)) = w_fs w.
Proof.
  induction fuel as [|fuel IH]; intros prompt tasks continuation w.
  - exists []. simpl. rewrite app_nil_r. auto.
  - rewrite haiku_step. cbn zeta.
    destruct (may_be_truncated _).
    + match goal with |- context [haiku fuel ?p ?t ?c ?w'] =>
        destruct (IH p t c w') as (new & E & F & G);
        destruct (haiku fuel p t c w') as [w2 [r|e'|]]
      end; simpl in *; eexists; rewrite E, <- app_assoc;
        (split; [reflexivity|split; [constructor; [reflexivity|exact F]|exact G]]).
    + simpl. eexists. split; [reflexivity|]. split; [|reflexivity].
      constructor; [reflexivity|constructor].
Qed.

(** The orchestrator call always returns the reply to its prompt. *)
Lemma orchestrator_spec objective file_content previous_results w :
  let prompt := generate_ollama_prompt objective file_content
                  (previous_results_text_of previous_results) in
  let response := chat (w_calls w) ORCHESTRATOR_MODEL prompt in
  exists w1,
    orchestrator objective file_content previous_results w
      = (w1, Ret (response, file_content))
    /\ w_calls w1 = w_calls w ++ [Call Orchestrator ORCHESTRATOR_MODEL prompt response]
    /\ w_fs w1 = w_fs w.
Proof.
  cbn zeta. unfold opus_orchestrator, display_file_content_panel.
  destruct file_content as [fc|]; [destruct (truthy fc)|];
    monad_unfold; cbn; eexists; split; reflexivity || (split; reflexivity).
Qed.

(** C9: for every instruction and every history, the prompt composed by the
    sub-agent starts with the header [Previous Haiku tasks:], so it is not
    empty after stripping, and the sub-agent never raises (in particular not
    the [ValueError] of the empty-prompt test). *)
Theorem haiku_prompt_never_empty :
  forall (prompt : pystr) (previous_haiku_tasks : list TaskRecord) (continuation : bool),
    startswith (str "Previous Haiku tasks:")
      (haiku_full_prompt prompt previous_haiku_tasks continuation) = true
    /\ truthy (strip (haiku_full_prompt prompt previous_haiku_tasks continuation)) = true
    /\ (forall fuel w e,
          snd (haiku fuel prompt previous_haiku_tasks continuation w) <> Raise e).
Proof.
  intros prompt tasks continuation. split; [|split].
  - unfold haiku_full_prompt, previous_tasks_summary.
    rewrite <- !app_assoc. apply startswith_app.
  - apply haiku_full_prompt_truthy.
  - intros fuel w e. apply haiku_never_raises.
Qed.

(** C4: when the service answers the sub-agent first with a text of at least
    4000 characters and then with a shorter one, the sub-agent returns the two
    texts concatenated as they are, and makes exactly two calls: the original
    one and one continuation. *)
Theorem haiku_continuation_concatenates
    (prompt : pystr) (previous_haiku_tasks : list TaskRecord) (w : world)
    (first second : pystr) (fuel : nat) :
  let request := haiku_full_prompt prompt previous_haiku_tasks false in
  let continuation := haiku_full_prompt continuation_prompt previous_haiku_tasks true in
  chat (w_calls w) SUBAGENT_MODEL request = first ->
  THRESHOLD <= length first ->
  chat (w_calls w ++ [Call SubAgent SUBAGENT_MODEL request first])
       SUBAGENT_MODEL continuation = second ->
  length second < THRESHOLD ->
  2 <= fuel ->
  exists w',
    haiku fuel prompt previous_haiku_tasks false w = (w', Ret (first ++ second))
    /\ w_calls w' = w_calls w ++ [Call SubAgent SUBAGENT_MODEL request first;
                                  Call SubAgent SUBAGENT_MODEL continuation second]
    /\ w_console w' = w_console w ++ [TruncationWarning;
                                      SubAgentResultPanel second;
                                      SubAgentResultPanel (first ++ second)].
Proof.
  intros request continuation H1 L1 H2 L2 Hfuel.
  destruct fuel as [|[|fuel]]; [lia|lia|].
  rewrite haiku_step. cbn zeta. fold request. rewrite H1.
  assert (T1 : may_be_truncated first = true) by (apply Nat.leb_le; exact L1).
  assert (T2 : may_be_truncated second = false) by (apply Nat.leb_gt; exact L2).
  rewrite T1. rewrite haiku_step. cbn zeta. cbn [w_calls w_fs w_console].
  change (haiku_full_prompt continuation_prompt previous_haiku_tasks true)
    with continuation.
  rewrite H2, T2. eexists. split; [reflexivity|].
  cbn [w_calls w_console]. rewrite <- !app_assoc. split; reflexivity.
Qed.

(** One level of the refiner. *)
Lemma refine_step fuel objective sub_task_results filename projectname continuation w :
  refine (S fuel) objective sub_task_results filename projectname continuation w =
  let request := refine_prompt objective sub_task_results in
  let response_text := chat (w_calls w) REFINER_MODEL request in
  let w1 := World (w_fs w) (w_console w ++ [CallingRefiner])
              (w_calls w ++ [Call Refiner REFINER_MODEL request response_text]) in
  if may_be_truncated response_text then
    match refine fuel objective sub_task_results filename projectname true
            (World (w_fs w1) (w_console w1 ++ [TruncationWarning]) (w_calls w1)) with
    | (w2, Ret continuation_response_text) =>
        (World (w_fs w2)
           (w_console w2 ++ [FinalOutputPanel (response_text ++ continuation_response_text)])
           (w_calls w2),
         Ret (response_text ++ continuation_response_text))
    | (w2, Raise e) => (w2, Raise e)
    | (w2, OutOfFuel) => (w2, OutOfFuel)
    end
  else
    (World (w_fs w1) (w_console w1 ++ [FinalOutputPanel response_text]) (w_calls w1),
     Ret response_text).
Proof.
  cbn [opus_refine]. monad_unfold. cbn -[opus_refine].
  destruct (may_be_truncated _); [|reflexivity].
  cbn -[opus_refine].
  destruct (opus_refine _ _ _ _ _ _ _ _ _) as [w2 [r|e|]]; reflexivity.
Qed.

(** C2, the refiner: after a reply of at least 4000 characters the refiner
    calls the service again with the prompt it sent the first time; the
    request is not the continuation instruction, and the first reply is not
    part of what is sent. *)
Theorem refine_continuation_resends_prompt
    (objective : pystr) (sub_task_results : list pystr)
    (filename projectname : pystr) (w : world)
    (first second : pystr) (fuel : nat) :
  let request := refine_prompt objective sub_task_results in
  chat (w_calls w) REFINER_MODEL request = first ->
  THRESHOLD <= length first ->
  chat (w_calls w ++ [Call Refiner REFINER_MODEL request first])
       REFINER_MODEL request = second ->
  length second < THRESHOLD ->
  2 <= fuel ->
  exists w',
    refine fuel objective sub_task_results filename projectname false w
      = (w', Ret (first ++ second))
    /\ w_calls w' = w_calls w ++ [Call Refiner REFINER_MODEL request first;
                                  Call Refiner REFINER_MODEL request second]
    /\ request <> continuation_prompt.
Proof.
  intros request H1 L1 H2 L2 Hfuel.
  destruct fuel as [|[|fuel]]; [lia|lia|].
  rewrite refine_step. cbn zeta. fold request. rewrite H1.
  assert (T1 : may_be_truncated first = true) by (apply Nat.leb_le; exact L1).
  assert (T2 : may_be_truncated second = false) by (apply Nat.leb_gt; exact L2).
  rewrite T1. rewrite refine_step. cbn zeta. cbn [w_calls w_fs w_console].
  fold request. rewrite H2, T2. eexists. split; [reflexivity|].
  cbn [w_calls]. rewrite <- !app_assoc. split; [reflexivity|].
  unfold request, refine_prompt, continuation_prompt.
  change (str "Objective: ") with (79%N :: str "bjective: ").
  change (str "Continuing from the previous answer, please complete the response.")
    with (67%N :: str "ontinuing from the previous answer, please complete the response.").
  discriminate.
Qed.

End AgentFacts.

(** ** The orchestration loop *)

Arguments sub_task_prompt_of : simpl never.

Section LoopFacts.

Context (chat : list call -> pystr -> pystr -> pystr).
Context (ORCHESTRATOR_MODEL SUBAGENT_MODEL REFINER_MODEL : pystr).

Local Abbreviation haiku := (haiku_sub_agent chat SUBAGENT_MODEL).
Local Abbreviation ask := (ask_orchestrator chat ORCHESTRATOR_MODEL).
Local Abbreviation body := (loop_body chat ORCHESTRATOR_MODEL SUBAGENT_MODEL).
Local Abbreviation loop := (orchestration_loop chat ORCHESTRATOR_MODEL SUBAGENT_MODEL).

(** The orchestrator is asked with the file content on the first iteration
    only, and always answers. *)
Lemma ask_orchestrator_spec objective file_content v w :
  let first := is_empty (task_exchanges v) in
  let prompt := generate_ollama_prompt objective
                  (if first then file_content else None)
                  (previous_results_text_of (List.map snd (task_exchanges v))) in
  let response := chat (w_calls w) ORCHESTRATOR_MODEL prompt in
  exists w1,
    ask objective file_content v w
      = (w1, Ret (response, if first then file_content else file_content_for_haiku v))
    /\ w_calls w1 = w_calls w ++ [Call Orchestrator ORCHESTRATOR_MODEL prompt response]
    /\ w_fs w1 = w_fs w.
Proof.
  cbn zeta. unfold ask_orchestrator.
  destruct (is_empty (task_exchanges v)).
  - apply orchestrator_spec.
  - destruct (orchestrator_spec chat ORCHESTRATOR_MODEL objective None
                (List.map snd (task_exchanges v)) w) as (w1 & E & C & F).
    exists w1. unfold bind at 1. rewrite E. cbn. auto.
Qed.

(** One iteration, by cases. *)
Lemma loop_body_eq fuel objective file_content v w :
  body fuel objective file_content v w =
  match ask objective file_content v w with
  | (w1, Ret (opus_result, fcfh)) =>
      if contains MARKER opus_result
      then (w1, Ret (DONE (strip (replace MARKER [] opus_result))))
      else
        let sub_task_prompt := sub_task_prompt_of opus_result fcfh (haiku_tasks v) in
        match haiku fuel sub_task_prompt (haiku_tasks v) false w1 with
        | (w2, Ret sub_task_result) =>
            (w2, Ret (AWAITING_NEXT_STEP
               {| task_exchanges := task_exchanges v ++ [(sub_task_prompt, sub_task_result)];
                  haiku_tasks := haiku_tasks v
                    ++ [{| task := sub_task_prompt; task_result := sub_task_result |}];
                  file_content_for_haiku := None |}))
        | (w2, Raise e) => (w2, Raise e)
        | (w2, OutOfFuel) => (w2, OutOfFuel)
        end
  | (w1, Raise e) => (w1, Raise e)
  | (w1, OutOfFuel) => (w1, OutOfFuel)
  end.
Proof.
  unfold loop_body. unfold bind at 1.
  destruct (ask objective file_content v w) as [w1 [[opus_result fcfh]|e|]];
    try reflexivity.
  cbn [fst snd]. destruct (contains MARKER opus_result); [reflexivity|].
  unfold bind, ret.
  destruct (haiku _ _ _ _ _) as [w2 [r|e|]]; reflexivity.
Qed.

Lemma loop_step fuel objective file_content v w :
  loop (S fuel) objective file_content v w =
  match body fuel objective file_content v w with
  | (w', Ret (DONE final_output)) => (w', Ret (final_output, v))
  | (w', Ret (AWAITING_NEXT_STEP v')) => loop fuel objective file_content v' w'
  | (w', Raise e) => (w', Raise e)
  | (w', OutOfFuel) => (w', OutOfFuel)
  end.
Proof.
  change (loop (S fuel) objective file_content v w) with
    (bind (body fuel objective file_content v)
       (fun s => match s with
                 | DONE final_output => ret (final_output, v)
                 | AWAITING_NEXT_STEP v' => loop fuel objective file_content v'
                 end) w).
  unfold bind.
  destruct (body fuel objective file_content v w) as [w' [[f|v']|e|]]; reflexivity.
Qed.

Lemma sub_task_prompt_of_cases opus_result fcfh tasks :
  let sub_task_prompt := sub_task_prompt_of opus_result fcfh tasks in
  (exists fc, fcfh = Some fc /\ fc <> [] /\ tasks = []
              /\ sub_task_prompt = opus_result ++ seed_block fc)
  \/ ((opt_truthy fcfh = false \/ tasks <> []) /\ sub_task_prompt = opus_result).
Proof.
  cbn zeta. unfold sub_task_prompt_of.
  destruct fcfh as [fc|]; [|right; auto].
  destruct fc as [|c fc]; [right; auto|].
  destruct tasks as [|t tasks]; simpl.
  - left. exists (c :: fc). repeat split; try discriminate.
  - right. split; [right; discriminate|reflexivity].
Qed.

(** C1, amended: when the orchestrator's reply contains the marker, the
    iteration leaves the loop ([DONE]) with the reply in which the
    occurrences of the marker, taken left to right, are deleted and the
    result stripped, so that it has no leading or trailing whitespace; when
    the reply does not contain the marker, the instruction dispatched is the
    reply, followed by the seed block on the first dispatch when there is seed
    content, and when the sub-agent returns the iteration goes back to the top
    of the loop ([AWAITING_NEXT_STEP]) with the exchange appended. *)
Theorem loop_body_transition
    (fuel : nat) (objective : pystr) (file_content : option pystr)
    (v : loop_vars) (w : world) :
  let first := is_empty (task_exchanges v) in
  let prompt := generate_ollama_prompt objective
                  (if first then file_content else None)
                  (previous_results_text_of (List.map snd (task_exchanges v))) in
  let opus_result := chat (w_calls w) ORCHESTRATOR_MODEL prompt in
  let fcfh := if first then file_content else file_content_for_haiku v in
  let sub_task_prompt := sub_task_prompt_of opus_result fcfh (haiku_tasks v) in
  exists w1,
    ask objective file_content v w = (w1, Ret (opus_result, fcfh))
    /\ w_calls w1 = w_calls w ++ [Call Orchestrator ORCHESTRATOR_MODEL prompt opus_result]
    /\ (contains MARKER opus_result = true ->
          body fuel objective file_content v w
            = (w1, Ret (DONE (strip (replace MARKER [] opus_result))))
          /\ trimmed (strip (replace MARKER [] opus_result)))
    /\ (contains MARKER opus_result = false ->
          ((exists fc, fcfh = Some fc /\ fc <> [] /\ haiku_tasks v = []
                       /\ sub_task_prompt = opus_result ++ seed_block fc)
           \/ ((opt_truthy fcfh = false \/ haiku_tasks v <> [])
               /\ sub_task_prompt = opus_result))
          /\ forall w2 sub_task_result,
               haiku fuel sub_task_prompt (haiku_tasks v) false w1
                 = (w2, Ret sub_task_result) ->
               body fuel objective file_content v w
                 = (w2, Ret (AWAITING_NEXT_STEP
                      {| task_exchanges :=
                           task_exchanges v ++ [(sub_task_prompt, sub_task_result)];
                         haiku_tasks :=
                           haiku_tasks v ++ [{| task := sub_task_prompt;
                                                task_result := sub_task_result |}];
                         file_content_for_haiku := None |}))).
Proof.
  cbn zeta.
  destruct (ask_orchestrator_spec objective file_content v w) as (w1 & Hask & Hc & _).
  exists w1. split; [exact Hask|]. split; [exact Hc|]. split.
  - intros Hm. split; [|apply strip_trimmed].
    rewrite loop_body_eq, Hask, Hm. reflexivity.
  - intros Hm. split; [apply sub_task_prompt_of_cases|].
    intros w2 r Hh. rewrite loop_body_eq, Hask, Hm. cbn zeta.
    rewrite Hh. reflexivity.
Qed.

Lemma orchestrator_calls_snoc w w1 c :
  w_calls w1 = w_calls w ++ [c] -> c_role c = Orchestrator ->
  orchestrator_calls w1 = orchestrator_calls w ++ [c].
Proof.
  intros E R. unfold orchestrator_calls. rewrite E, List.filter_app.
  simpl. rewrite R. reflexivity.
Qed.

Lemma orchestrator_calls_subagent w w1 new :
  w_calls w1 = w_calls w ++ new -> Forall (fun c => c_role c = SubAgent) new ->
  orchestrator_calls w1 = orchestrator_calls w.
Proof.
  intros E F. unfold orchestrator_calls. rewrite E, List.filter_app. clear E.
  replace (List.filter _ new) with (@nil call); [apply app_nil_r|].
  induction F as [|c new R F IH]; [reflexivity|].
  simpl. rewrite R. exact IH.
Qed.

Lemma orchestrator_prompts_S objective file_content results n :
  orchestrator_prompts objective file_content results (S n)
  = orchestrator_prompts objective file_content results n
    ++ [generate_ollama_prompt objective
          (match n with O => file_content | S _ => None end)
          (previous_results_text_of (take n results))].
Proof.
  unfold orchestrator_prompts. rewrite seq_S, List.map_app. reflexivity.
Qed.

Lemma orchestrator_prompts_snoc objective file_content results r n :
  n <= length results ->
  orchestrator_prompts objective file_content (results ++ [r]) n
  = orchestrator_prompts objective file_content results n.
Proof.
  intros Hn. unfold orchestrator_prompts. apply List.map_ext_in.
  intros i Hi. apply in_seq in Hi. rewrite take_app_le by lia. reflexivity.
Qed.

Lemma dispatched_snoc file_content replies r :
  replies <> [] ->
  dispatched file_content (replies ++ [r]) = dispatched file_content replies ++ [r].
Proof. destruct replies; [contradiction|reflexivity]. Qed.

Lemma dispatched_nil_inv file_content replies :
  dispatched file_content replies = [] -> replies = [].
Proof. destruct replies; [reflexivity|discriminate]. Qed.

Lemma first_prompt_arg {A} (l : list A) (file_content : option pystr) :
  (if is_empty l then file_content else None)
  = match length l with O => file_content | S _ => None end.
Proof. destruct l; reflexivity. Qed.

(** The invariant is kept by an iteration that goes on, and gives the
    outcome when the loop stops. *)
Lemma loop_run objective file_content fuel : forall v w,
  loop_invariant objective file_content v w ->
  loop_outcome objective file_content (loop fuel objective file_content v w).
Proof.
  induction fuel as [|fuel IH]; intros v w (I1 & I2 & I3 & I4 & I5).
  - exact I5.
  - cbn [orchestration_loop]. unfold bind at 1. rewrite loop_body_eq.
    destruct (ask_orchestrator_spec objective file_content v w) as (w1 & Hask & Hc & _).
    rewrite Hask. clear Hask.
    set (prompt := generate_ollama_prompt _ _ _) in *.
    set (resp := chat (w_calls w) ORCHESTRATOR_MODEL prompt) in *.
    pose proof (orchestrator_calls_snoc _ _ _ Hc eq_refl) as Ho.
    assert (Hprompts :
      List.map c_content (orchestrator_calls w1)
      = orchestrator_prompts objective file_content
          (List.map snd (task_exchanges v)) (S (length (task_exchanges v)))).
    { rewrite Ho, List.map_app, I4, orchestrator_prompts_S. cbn [List.map c_content].
      f_equal. f_equal. unfold prompt. rewrite first_prompt_arg.
      rewrite take_ge by (rewrite length_map; lia). reflexivity. }
    destruct (contains MARKER resp) eqn:Hm.
    + cbn. split; [|split].
      * rewrite Ho, List.map_app. cbn [List.map]. rewrite removelast_last. exact I3.
      * exact Hprompts.
      * eexists _, _. split; [exact Ho|]. repeat split; assumption.
    + cbn zeta.
      set (p := sub_task_prompt_of resp _ (haiku_tasks v)).
      destruct (haiku_calls chat SUBAGENT_MODEL fuel p (haiku_tasks v) false w1)
        as (new & E & F & _).
      pose proof (haiku_never_raises chat SUBAGENT_MODEL fuel p (haiku_tasks v) false w1) as NR.
      destruct (haiku fuel p (haiku_tasks v) false w1) as [w2 [r|e|]];
        cbn [fst snd] in *; cbv beta iota.
      * apply IH. pose proof (orchestrator_calls_subagent _ _ _ E F) as Ho2.
        unfold loop_invariant. cbn [task_exchanges haiku_tasks file_content_for_haiku].
        rewrite Ho2, Ho. split; [|split; [|split; [|split]]].
        -- rewrite List.map_app, I1. reflexivity.
        -- reflexivity.
        -- rewrite !List.map_app. cbn [List.map fst c_response].
           destruct (task_exchanges v) as [|e0 ex] eqn:Ex.
           ++ symmetry in I3. apply dispatched_nil_inv in I3. rewrite I3.
              cbn. subst p. cbn [is_empty]. rewrite I1. reflexivity.
           ++ rewrite dispatched_snoc.
              ** rewrite <- I3. f_equal. subst p. cbn [is_empty].
                 rewrite I2 by discriminate. reflexivity.
              ** intros N. rewrite N in I3. discriminate.
        -- rewrite <- Ho, Hprompts, List.map_app, length_app. cbn [length List.map snd].
           rewrite Nat.add_1_r.
           rewrite !orchestrator_prompts_S.
           rewrite orchestrator_prompts_snoc by (rewrite length_map; lia).
           rewrite take_app_le by (rewrite length_map; lia). reflexivity.
        -- apply Forall_app. split; [exact I5|]. constructor; [exact Hm|constructor].
      * exfalso. apply (NR e). reflexivity.
      * unfold loop_outcome.
        rewrite (orchestrator_calls_subagent _ _ _ E F), Ho.
        apply Forall_app. split; [exact I5|]. constructor; [exact Hm|constructor].
Qed.

Lemma initial_invariant objective file_content fs :
  loop_invariant objective file_content initial_vars (initial_world fs).
Proof.
  unfold loop_invariant. cbn.
  split; [reflexivity|]. split; [reflexivity|]. split; [reflexivity|].
  split; [reflexivity|constructor].
Qed.

Lemma dispatched_seeded fc replies :
  fc <> [] -> dispatched (Some fc) replies = seeded fc replies.
Proof.
  intros Hfc. destruct replies as [|r rs]; [reflexivity|].
  unfold dispatched, seeded, sub_task_prompt_of, seed_block.
  destruct fc; [contradiction|]. reflexivity.
Qed.

Lemma generate_ollama_prompt_has_file_content objective fc text :
  fc <> [] ->
  contains fc (generate_ollama_prompt objective (Some fc) text) = true.
Proof.
  intros Hfc. unfold generate_ollama_prompt.
  destruct fc as [|c fc]; [contradiction|]. cbn [opt_truthy truthy].
  set (f := c :: fc).
  rewrite <- !app_assoc.
  repeat first [apply contains_prefix | apply contains_app_r].
Qed.

(** The requests of one dispatch: the first carries the instruction, the
    others the continuation prompt, all with the same history. *)
Lemma haiku_requests fuel : forall prompt tasks continuation w,
  exists new,
    w_calls (fst (haiku fuel prompt tasks continuation w)) = w_calls w ++ new
    /\ Forall (fun c => c_role c = SubAgent) new
    /\ List.map c_content new
       = match length new with
         | O => []
         | S m => haiku_full_prompt prompt tasks continuation
                  :: repeat (haiku_full_prompt continuation_prompt tasks true) m
         end
    /\ (returned (snd (haiku fuel prompt tasks continuation w)) = true -> 1 <= length new).
Proof.
  induction fuel as [|fuel IH]; intros prompt tasks continuation w.
  - exists []. cbn. rewrite app_nil_r. repeat split; [constructor|discriminate].
  - rewrite haiku_step. cbn zeta.
    destruct (may_be_truncated _).
    + match goal with |- context [haiku fuel ?p ?t ?c ?w'] =>
        destruct (IH p t c w') as (new & E & F & C & _);
        destruct (haiku fuel p t c w') as [w2 [r|e'|]]
      end; cbn [fst snd w_calls] in *;
        (eexists (_ :: new); rewrite E, <- app_assoc;
         split; [reflexivity|];
         split; [constructor; [reflexivity|exact F]|];
         split; [|intros _; cbn [length]; lia];
         cbn [List.map c_content length]; rewrite C;
         destruct (length new); reflexivity).
    + cbn [fst snd w_calls]. eexists [_]. split; [reflexivity|].
      split; [constructor; [reflexivity|constructor]|].
      split; [reflexivity|intros _; apply le_n].
Qed.

Lemma subagent_calls_orchestrator w w1 c :
  w_calls w1 = w_calls w ++ [c] -> c_role c = Orchestrator ->
  subagent_calls w1 = subagent_calls w.
Proof.
  intros E R. unfold subagent_calls. rewrite E, List.filter_app.
  cbn [List.filter]. rewrite R. apply app_nil_r.
Qed.

Lemma subagent_calls_new w w1 new :
  w_calls w1 = w_calls w ++ new -> Forall (fun c => c_role c = SubAgent) new ->
  subagent_calls w1 = subagent_calls w ++ new.
Proof.
  intros E F. unfold subagent_calls. rewrite E, List.filter_app. f_equal. clear E.
  induction F as [|c new R F IH]; [reflexivity|].
  cbn [List.filter]. rewrite R, IH. reflexivity.
Qed.

Lemma subagent_requests_snoc exchanges : forall ns history e n,
  length ns = length exchanges ->
  subagent_requests history (exchanges ++ [e]) (ns ++ [n])
  = subagent_requests history exchanges ns
    ++ dispatch_requests (history ++ List.map task_of exchanges) (fst e) n.
Proof.
  induction exchanges as [|e0 exchanges IH]; intros [|n0 ns] history e n L;
    try discriminate.
  - cbn. rewrite !app_nil_r. reflexivity.
  - cbn [app subagent_requests List.map]. injection L as L.
    rewrite (IH ns _ e n L), <- !app_assoc. reflexivity.
Qed.

Lemma dispatched_length file_content replies :
  length (dispatched file_content replies) = length replies.
Proof. destruct replies; reflexivity. Qed.

(** The invariant after one more dispatch, whatever its result. *)
Lemma loop_invariant_kept objective file_content v w w1 w2 new resp r :
  loop_invariant objective file_content v w ->
  let prompt := generate_ollama_prompt objective
                  (if is_empty (task_exchanges v) then file_content else None)
                  (previous_results_text_of (List.map snd (task_exchanges v))) in
  let fcfh := if is_empty (task_exchanges v)
              then file_content else file_content_for_haiku v in
  let p := sub_task_prompt_of resp fcfh (haiku_tasks v) in
  w_calls w1 = w_calls w ++ [Call Orchestrator ORCHESTRATOR_MODEL prompt resp] ->
  contains MARKER resp = false ->
  w_calls w2 = w_calls w1 ++ new ->
  Forall (fun c => c_role c = SubAgent) new ->
  loop_invariant objective file_content
    {| task_exchanges := task_exchanges v ++ [(p, r)];
       haiku_tasks := haiku_tasks v ++ [{| task := p; task_result := r |}];
       file_content_for_haiku := None |} w2.
Proof.
  intros (I1 & I2 & I3 & I4 & I5) prompt fcfh p Hc Hm E F.
  pose proof (orchestrator_calls_snoc _ _ _ Hc eq_refl) as Ho.
  pose proof (orchestrator_calls_subagent _ _ _ E F) as Ho2.
  assert (Hprompts :
    List.map c_content (orchestrator_calls w1)
    = orchestrator_prompts objective file_content
        (List.map snd (task_exchanges v)) (S (length (task_exchanges v)))).
  { rewrite Ho, List.map_app, I4, orchestrator_prompts_S. cbn [List.map c_content].
    f_equal. f_equal. unfold prompt. rewrite first_prompt_arg.
    rewrite take_ge by (rewrite length_map; lia). reflexivity. }
  unfold loop_invariant. cbn [task_exchanges haiku_tasks file_content_for_haiku].
  rewrite Ho2, Ho. split; [|split; [|split; [|split]]].
  - rewrite List.map_app, I1. reflexivity.
  - reflexivity.
  - rewrite !List.map_app. cbn [List.map fst c_response].
    destruct (task_exchanges v) as [|e0 ex] eqn:Ex.
    + symmetry in I3. apply dispatched_nil_inv in I3. rewrite I3.
      cbn. subst p fcfh. cbn [is_empty]. rewrite I1. reflexivity.
    + rewrite dispatched_snoc.
      * rewrite <- I3. f_equal. subst p fcfh. cbn [is_empty].
        rewrite I2 by discriminate. reflexivity.
      * intros N. rewrite N in I3. discriminate.
  - rewrite <- Ho, Hprompts, List.map_app, length_app. cbn [length List.map snd].
    rewrite Nat.add_1_r.
    rewrite !orchestrator_prompts_S.
    rewrite orchestrator_prompts_snoc by (rewrite length_map; lia).
    rewrite take_app_le by (rewrite length_map; lia). reflexivity.
  - apply Forall_app. split; [exact I5|]. constructor; [exact Hm|constructor].
Qed.

(** The calls of a run, whether it returns or runs out of fuel: the prompts of
    the orchestrator, and the requests of the sub-agent, dispatch by
    dispatch. *)
Lemma loop_requests objective file_content fuel : forall v w ns,
  loop_invariant objective file_content v w ->
  length ns = length (task_exchanges v) ->
  Forall (fun n => 1 <= n) ns ->
  List.map c_content (subagent_calls w) = subagent_requests [] (task_exchanges v) ns ->
  let out := loop fuel objective file_content v w in
  let replies := List.map c_response (orchestrator_calls (fst out)) in
  exists exchanges ns',
    List.map c_content (orchestrator_calls (fst out))
      = orchestrator_prompts objective file_content (List.map snd exchanges)
          (length replies)
    /\ List.map fst exchanges
       = dispatched file_content
           (if returned (snd out) then removelast replies else replies)
    /\ length ns' = length exchanges
    /\ List.map c_content (subagent_calls (fst out)) = subagent_requests [] exchanges ns'
    /\ match snd out with
       | Ret (_, v') =>
           task_exchanges v' = exchanges
           /\ haiku_tasks v' = List.map task_of exchanges
           /\ Forall (fun n => 1 <= n) ns'
       | Raise _ => False
       | OutOfFuel => True
       end.
Proof.
  induction fuel as [|fuel IH]; intros v w ns Inv L P R; cbn zeta.
  - cbn [orchestration_loop]. unfold out_of_fuel. cbn [fst snd returned].
    destruct Inv as (I1 & I2 & I3 & I4 & I5).
    exists (task_exchanges v), ns.
    split.
    { rewrite I4. f_equal. apply (f_equal (@length pystr)) in I3.
      rewrite dispatched_length, !List.length_map in I3.
      rewrite List.length_map. exact I3. }
    repeat split; assumption.
  - rewrite loop_step, loop_body_eq.
    destruct (ask_orchestrator_spec objective file_content v w) as (w1 & Hask & Hc & _).
    rewrite Hask. clear Hask.
    set (prompt := generate_ollama_prompt _ _ _) in *.
    set (resp := chat (w_calls w) ORCHESTRATOR_MODEL prompt) in *.
    destruct (contains MARKER resp) eqn:Hm.
    + cbn [fst snd returned].
      destruct Inv as (I1 & I2 & I3 & I4 & I5).
      pose proof (orchestrator_calls_snoc _ _ _ Hc eq_refl) as Ho.
      exists (task_exchanges v), ns.
      rewrite (subagent_calls_orchestrator _ _ _ Hc eq_refl), Ho, !List.map_app.
      cbn [List.map c_response c_content]. rewrite removelast_last.
      split.
      { rewrite length_app, Nat.add_1_r. cbn [length].
        apply (f_equal (@length pystr)) in I3.
        rewrite dispatched_length, !List.length_map in I3.
        rewrite List.length_map, <- I3, I4, orchestrator_prompts_S.
        f_equal. f_equal. unfold prompt. rewrite first_prompt_arg.
        rewrite take_ge by (rewrite length_map; lia). reflexivity. }
      repeat split; assumption.
    + cbn zeta.
      set (p := sub_task_prompt_of resp _ (haiku_tasks v)).
      destruct (haiku_requests fuel p (haiku_tasks v) false w1) as (new & E & F & C & N).
      pose proof (haiku_never_raises chat SUBAGENT_MODEL fuel p (haiku_tasks v) false w1)
        as NR.
      assert (R' : forall w2, w_calls w2 = w_calls w1 ++ new ->
        List.map c_content (subagent_calls w2)
        = subagent_requests [] (task_exchanges v ++ [(p, [])]) (ns ++ [length new])).
      { intros w2 E2. rewrite (subagent_calls_new _ _ _ E2 F).
        rewrite (subagent_calls_orchestrator _ _ _ Hc eq_refl).
        rewrite List.map_app, R, C, (subagent_requests_snoc _ _ _ _ _ L).
        destruct Inv as (I1 & _). cbn [app fst]. rewrite <- I1. reflexivity. }
      destruct (haiku fuel p (haiku_tasks v) false w1) as [w2 [r|e|]];
        cbn [fst snd] in *; cbv beta match.
      * apply (IH _ _ (ns ++ [length new])).
        -- exact (loop_invariant_kept objective file_content v w w1 w2 new resp r
                    Inv Hc Hm E F).
        -- cbn [task_exchanges]. rewrite !length_app, L. reflexivity.
        -- apply Forall_app. split; [exact P|].
           constructor; [apply N; reflexivity|constructor].
        -- cbn [task_exchanges]. rewrite (R' w2 E).
           rewrite !(subagent_requests_snoc _ _ _ _ _ L). reflexivity.
      * exfalso. apply (NR e). reflexivity.
      * cbn [returned].
        destruct (loop_invariant_kept objective file_content v w w1 w2 new resp []
                    Inv Hc Hm E F) as (_ & _ & I3' & I4' & _).
        cbn [task_exchanges] in I3', I4'. fold p in I3', I4'.
        exists (task_exchanges v ++ [(p, [])]), (ns ++ [length new]).
        split.
        { rewrite I4'. f_equal. apply (f_equal (@length pystr)) in I3'.
          rewrite dispatched_length, !List.length_map in I3'.
          rewrite List.length_map. exact I3'. }
        split; [exact I3'|].
        split; [rewrite !length_app, L; reflexivity|].
        split; [exact (R' w2 E)|exact I].
Qed.

(** C3, amended: with non-empty seed content, for every run of the loop,
    whether it returns or not.  The file content is passed to the
    orchestrator on its first call only (that prompt contains it; the later
    prompts are built without a file content).  The requests the sub-agent
    receives are those of the dispatches, in order: each dispatch sends its
    instruction in its first request and the continuation prompt in the
    others; the instruction of the first dispatch is the orchestrator's first
    reply followed by the seed block, and the instruction of every later
    dispatch is the orchestrator's reply as it is.  When the loop returns,
    the exchanges are the recorded ones and every dispatch has made at least
    one request. *)
Theorem seed_content_single_use
    (fuel : nat) (objective fc : pystr) (fs : gmap (list pystr) node) :
  fc <> [] ->
  let out := loop fuel objective (Some fc) initial_vars (initial_world fs) in
  let replies := List.map c_response (orchestrator_calls (fst out)) in
  let instructions :=
    seeded fc (if returned (snd out) then removelast replies else replies) in
  contains fc (generate_ollama_prompt objective (Some fc)
                 (previous_results_text_of [])) = true
  /\ exists (exchanges : list (pystr * pystr)) (ns : list nat),
       List.map c_content (orchestrator_calls (fst out))
         = orchestrator_prompts objective (Some fc) (List.map snd exchanges)
             (length replies)
       /\ List.map fst exchanges = instructions
       /\ length ns = length exchanges
       /\ List.map c_content (subagent_calls (fst out))
          = subagent_requests [] exchanges ns
       /\ match snd out with
          | Ret (_, v) =>
              task_exchanges v = exchanges
              /\ haiku_tasks v = List.map task_of exchanges
              /\ Forall (fun n => 1 <= n) ns
          | Raise _ => False
          | OutOfFuel => True
          end.
Proof.
  intros Hfc. cbn zeta.
  split; [apply generate_ollama_prompt_has_file_content; exact Hfc|].
  destruct (loop_requests objective (Some fc) fuel initial_vars (initial_world fs) []
              (initial_invariant objective (Some fc) fs) eq_refl
              (List.Forall_nil _) eq_refl)
    as (exchanges & ns & H1 & H2 & H3 & H4 & H5).
  exists exchanges, ns.
  rewrite <- (dispatched_seeded fc _ Hfc).
  repeat split; assumption.
Qed.

End LoopFacts.

(** ** No bound on the number of iterations *)

Lemma patient_loop n objective file_content OM SM : forall k v w,
  length (w_calls w) + 2 * k = 2 * n ->
  exists w' final_output v',
    orchestration_loop (Examples.patient n) OM SM (S k) objective file_content v w
      = (w', Ret (final_output, v'))
    /\ length (task_exchanges v') = length (task_exchanges v) + k.
Proof.
  induction k as [|k IH]; intros v w Hlen.
  - rewrite loop_step, loop_body_eq.
    destruct (ask_orchestrator_spec (Examples.patient n) OM objective file_content v w)
      as (w1 & -> & _ & _).
    unfold Examples.patient at 1 2.
    replace (length (w_calls w) =? 2 * n)%nat with true
      by (symmetry; apply Nat.eqb_eq; lia).
    change (contains MARKER MARKER) with true. cbv beta match.
    eexists _, _, _. split; [reflexivity|lia].
  - rewrite loop_step, loop_body_eq.
    destruct (ask_orchestrator_spec (Examples.patient n) OM objective file_content v w)
      as (w1 & -> & Hc & _).
    unfold Examples.patient at 1 2.
    replace (length (w_calls w) =? 2 * n)%nat with false
      by (symmetry; apply Nat.eqb_neq; lia).
    change (contains MARKER (str "go on")) with false. cbv beta match zeta.
    rewrite haiku_step. cbn zeta. unfold Examples.patient at 1 2.
    replace (length (w_calls w1) =? 2 * n)%nat with false
      by (symmetry; apply Nat.eqb_neq; rewrite Hc, length_app; simpl; lia).
    change (may_be_truncated (str "go on")) with false. cbv beta match.
    match goal with |- context [orchestration_loop _ _ _ _ _ _ ?vv ?ww] =>
      destruct (IH vv ww) as (wf & final_output & vf & E & L)
    end.
    + cbn [w_calls]. rewrite length_app, Hc, length_app. simpl. lia.
    + exists wf, final_output, vf. split; [exact E|].
      rewrite L. cbn [task_exchanges]. rewrite length_app. simpl. lia.
Qed.

(** C8: the loop has no bound on its iterations.  It returns exactly when an
    orchestrator reply it received contains the marker, it never raises, and
    when no orchestrator reply ever contains the marker it does not return
    whatever the fuel; for every [n] some service keeps it going for [n]
    sub-tasks before it ends. *)
Theorem loop_has_no_iteration_bound (objective : pystr) (file_content : option pystr) :
  (forall chat OM SM fs,
     let run fuel :=
       orchestration_loop chat OM SM fuel objective file_content
         initial_vars (initial_world fs) in
     ((exists fuel, returned (snd (run fuel)) = true)
      <-> (exists fuel, Exists (fun c => has_marker c = true)
                          (orchestrator_calls (fst (run fuel)))))
     /\ (forall fuel e, snd (run fuel) <> Raise e)
     /\ ((forall fuel, Forall (fun c => has_marker c = false)
                         (orchestrator_calls (fst (run fuel))))
         -> forall fuel, snd (run fuel) = OutOfFuel))
  /\ (forall n, exists chat OM SM fuel w final_output v,
        orchestration_loop chat OM SM fuel objective file_content
          initial_vars (initial_world ∅) = (w, Ret (final_output, v))
        /\ length (task_exchanges v) = n).
Proof.
  split.
  - intros chat OM SM fs run.
    assert (H : forall fuel, loop_outcome objective file_content (run fuel)).
    { intros fuel. apply loop_run, initial_invariant. }
    assert (NoBoth : forall (l : list call),
      Forall (fun c => has_marker c = false) l ->
      Exists (fun c => has_marker c = true) l -> False).
    { intros l F E. induction F as [|c l Hc F IH]; inversion E; subst.
      - congruence.
      - auto. }
    split; [split|split].
    + intros [fuel R]. exists fuel. specialize (H fuel).
      destruct (run fuel) as [w [[final v]|e|]]; try discriminate.
      cbn [fst snd] in *. destruct H as (_ & _ & earlier & c & -> & Hc & _).
      apply Exists_app. right. constructor. exact Hc.
    + intros [fuel E]. exists fuel. specialize (H fuel).
      destruct (run fuel) as [w [[final v]|e|]]; cbn in *.
      * reflexivity.
      * contradiction.
      * exfalso. eapply NoBoth; eassumption.
    + intros fuel e E. specialize (H fuel).
      destruct (run fuel) as [w r]. cbn in E. subst r. exact H.
    + intros Never fuel. specialize (H fuel). specialize (Never fuel).
      destruct (run fuel) as [w [[final v]|e|]]; cbn in *.
      * exfalso. destruct H as (_ & _ & earlier & c & E & Hc & _).
        rewrite E in Never. apply Forall_app in Never as [_ N].
        inversion N; subst. congruence.
      * contradiction.
      * reflexivity.
  - intros n.
    destruct (patient_loop n objective file_content [] [] n initial_vars (initial_world ∅))
      as (w & final_output & v & E & L).
    + cbn. lia.
    + exists (Examples.patient n), [], [], (S n), w, final_output, v.
      split; [exact E|exact L].
Qed.

(** ** The file system *)

Section FileSystemFacts.

Context (code_blocks : list (pystr * pystr)).

Local Abbreviation grows := (grows code_blocks).

Lemma grows_refl fs : grows fs fs.
Proof. intros q. split; [auto|]. intros c H. exists c. auto. Qed.

Lemma grows_trans fs1 fs2 fs3 : grows fs1 fs2 -> grows fs2 fs3 -> grows fs1 fs3.
Proof.
  intros H12 H23 q. destruct (H12 q) as [D12 F12], (H23 q) as [D23 F23].
  split; [auto|]. intros c Hc.
  destruct (F12 c Hc) as (c' & Hc' & E'). destruct (F23 c' Hc') as (c'' & Hc'' & E'').
  exists c''. split; [exact Hc''|]. intros Hn.
  specialize (E' Hn). subst c'. auto.
Qed.

Lemma grows_insert_dir (fs : gmap (list pystr) node) d :
  fs !! d = None -> grows fs (<[d := Dir]> fs).
Proof.
  intros Hd q. destruct (decide (d = q)) as [->|Hne].
  - rewrite Hd. split; [discriminate|]. intros c Hc. discriminate.
  - rewrite lookup_insert_ne by exact Hne. split; [auto|].
    intros c Hc. exists c. auto.
Qed.

Lemma grows_insert_file (fs : gmap (list pystr) node) d code :
  fs !! d <> Some Dir ->
  next_code (List.last d []) code_blocks = Some code ->
  grows fs (<[d := File code]> fs).
Proof.
  intros Hd Hn q. destruct (decide (d = q)) as [->|Hne].
  - rewrite lookup_insert_eq. split; [intros; contradiction|].
    intros c Hc. exists code. split; [reflexivity|]. congruence.
  - rewrite lookup_insert_ne by exact Hne. split; [auto|].
    intros c Hc. exists c. auto.
Qed.

Lemma grows_dir fs fs' d : grows fs fs' -> fs !! d = Some Dir -> fs' !! d = Some Dir.
Proof. intros G. apply G. Qed.

Lemma grows_file fs fs' d c :
  grows fs fs' -> fs !! d = Some (File c) -> exists c', fs' !! d = Some (File c').
Proof. intros G H. destruct (proj2 (G d) c H) as (c' & E & _). eauto. Qed.

Lemma makedirs_from_grows cs : forall fs cur,
  grows fs (fst (FS.makedirs_from fs cur cs)).
Proof.
  induction cs as [|c cs IH]; intros fs cur; simpl.
  - apply grows_refl.
  - destruct (FS.classify c); [apply IH|apply IH|].
    destruct (fs !! (cur ++ [c])) as [[|content]|] eqn:E.
    + apply IH.
    + apply grows_refl.
    + eapply grows_trans; [apply grows_insert_dir; exact E|apply IH].
Qed.

Lemma walk_reached_stable cs : forall fs fs' cur d,
  grows fs fs' -> FS.walk fs cur cs = FS.Reached d -> FS.walk fs' cur cs = FS.Reached d.
Proof.
  induction cs as [|c cs IH]; intros fs fs' cur d G; simpl; [auto|].
  destruct (FS.classify c); [apply IH; exact G|apply IH; exact G|].
  destruct (fs !! (cur ++ [c])) as [[|content]|] eqn:E; try discriminate.
  rewrite (grows_dir _ _ _ G E). apply IH. exact G.
Qed.

Lemma walk_blocked_stable cs : forall fs fs' cur,
  grows fs fs' -> FS.walk fs cur cs = FS.NotADirectory ->
  FS.walk fs' cur cs = FS.NotADirectory.
Proof.
  induction cs as [|c cs IH]; intros fs fs' cur G; simpl; [discriminate|].
  destruct (FS.classify c); [apply IH; exact G|apply IH; exact G|].
  destruct (fs !! (cur ++ [c])) as [[|content]|] eqn:E; try discriminate.
  - rewrite (grows_dir _ _ _ G E). apply IH. exact G.
  - destruct (grows_file _ _ _ _ G E) as (c' & ->). reflexivity.
Qed.

Lemma walk_settled_stable cs fs fs' cur :
  grows fs fs' -> FS.walk fs cur cs <> FS.NoSuchEntry ->
  FS.walk fs' cur cs <> FS.NoSuchEntry.
Proof.
  intros G H. destruct (FS.walk fs cur cs) as [d| |] eqn:E.
  - rewrite (walk_reached_stable _ _ _ _ _ G E). discriminate.
  - rewrite (walk_blocked_stable _ _ _ _ G E). discriminate.
  - contradiction.
Qed.

(** A successful [makedirs] does nothing when repeated later, and its path
    resolves from then on. *)
Lemma makedirs_from_done cs : forall fs cur fs1 fs2,
  FS.makedirs_from fs cur cs = (fs1, true) -> grows fs1 fs2 ->
  FS.makedirs_from fs2 cur cs = (fs2, true)
  /\ exists d, FS.walk fs1 cur cs = FS.Reached d.
Proof.
  induction cs as [|c cs IH]; intros fs cur fs1 fs2 M G; simpl in *.
  - split; [reflexivity|eauto].
  - destruct (FS.classify c); [eapply IH; eassumption|eapply IH; eassumption|].
    assert (D1 : fs1 !! (cur ++ [c]) = Some Dir).
    { destruct (fs !! (cur ++ [c])) as [[|content]|] eqn:E.
      - pose proof (makedirs_from_grows cs fs (cur ++ [c])) as G1.
        rewrite M in G1. exact (grows_dir _ _ _ G1 E).
      - discriminate.
      - pose proof (makedirs_from_grows cs (<[cur ++ [c] := Dir]> fs) (cur ++ [c])) as G1.
        rewrite M in G1. apply (grows_dir _ _ _ G1). apply lookup_insert_eq. }
    rewrite D1, (grows_dir _ _ _ G D1).
    destruct (fs !! (cur ++ [c])) as [[|content]|]; try discriminate;
      eapply IH; eassumption.
Qed.

(** A failed [makedirs] fails again later, and its path stops at a file from
    then on. *)
Lemma makedirs_from_failed cs : forall fs cur fs1 fs2,
  FS.makedirs_from fs cur cs = (fs1, false) -> grows fs1 fs2 ->
  FS.makedirs_from fs2 cur cs = (fs2, false)
  /\ FS.walk fs1 cur cs = FS.NotADirectory.
Proof.
  induction cs as [|c cs IH]; intros fs cur fs1 fs2 M G; simpl in *.
  - discriminate.
  - destruct (FS.classify c); [eapply IH; eassumption|eapply IH; eassumption|].
    destruct (fs !! (cur ++ [c])) as [[|content]|] eqn:E.
    + pose proof (makedirs_from_grows cs fs (cur ++ [c])) as G1.
      rewrite M in G1. cbn [fst] in G1.
      pose proof (grows_dir _ _ _ G1 E) as D1.
      rewrite D1, (grows_dir _ _ _ G D1). eapply IH; eassumption.
    + injection M as <-. rewrite E.
      destruct (grows_file _ _ _ _ G E) as (c' & ->). auto.
    + pose proof (makedirs_from_grows cs (<[cur ++ [c] := Dir]> fs) (cur ++ [c])) as G1.
      rewrite M in G1. cbn [fst] in G1.
      assert (D1 : fs1 !! (cur ++ [c]) = Some Dir)
        by (apply (grows_dir _ _ _ G1), lookup_insert_eq).
      rewrite D1, (grows_dir _ _ _ G D1). eapply IH; eassumption.
Qed.

Context (cwd : list pystr).

Lemma classify_empty : FS.classify [] = FS.Stay.
Proof. reflexivity. Qed.

Lemma makedirs_grows p fs : grows fs (fst (FS.makedirs cwd p fs)).
Proof.
  destruct p as [|c p]; [apply grows_refl|]. apply makedirs_from_grows.
Qed.

(** [os.makedirs] repeated on a later file system: same answer, no change;
    and its path is settled once it has been tried. *)
Lemma makedirs_repeat p fs fs1 fs2 ok :
  FS.makedirs cwd p fs = (fs1, ok) -> grows fs1 fs2 ->
  FS.makedirs cwd p fs2 = (fs2, ok) /\ settled cwd p fs1.
Proof.
  unfold settled. destruct p as [|c p]; cbn [FS.makedirs].
  - intros [= <- <-] _. split; [reflexivity|].
    cbn [split_on FS.walk]. rewrite classify_empty. discriminate.
  - intros M G. destruct ok.
    + destruct (makedirs_from_done _ _ _ _ _ M G) as (E & d & W).
      split; [exact E|]. rewrite W. discriminate.
    + destruct (makedirs_from_failed _ _ _ _ _ M G) as (E & W).
      split; [exact E|]. rewrite W. discriminate.
Qed.

Lemma write_file_inv (p code : pystr) (fs fs1 : gmap (list pystr) node) :
  FS.write_file cwd p code fs = Some fs1 ->
  exists d,
    p <> []
    /\ FS.walk fs (FS.start_of cwd p) (removelast (split_on FS.sep p)) = FS.Reached d
    /\ FS.classify (List.last (split_on FS.sep p) []) = FS.Name
    /\ fs !! (d ++ [List.last (split_on FS.sep p) []]) <> Some Dir
    /\ fs1 = <[d ++ [List.last (split_on FS.sep p) []] := File code]> fs.
Proof.
  unfold FS.write_file. destruct p as [|c p]; [discriminate|].
  destruct (FS.walk _ _ _) as [d| |]; try discriminate.
  destruct (FS.classify _); try discriminate.
  intros H. exists d. split; [discriminate|]. split; [reflexivity|].
  split; [reflexivity|].
  destruct (fs !! _) as [[|content]|] eqn:E; try discriminate;
    injection H as <-; (split; [discriminate|reflexivity]).
Qed.

Lemma write_file_grows (p code : pystr) fs fs1 :
  FS.write_file cwd p code fs = Some fs1 ->
  next_code (List.last (split_on FS.sep p) []) code_blocks = Some code ->
  grows fs fs1.
Proof.
  intros W N. destruct (write_file_inv _ _ _ _ W) as (d & _ & _ & _ & ND & ->).
  apply grows_insert_file; [exact ND|]. rewrite last_last. exact N.
Qed.

(** A write that succeeded changes nothing when repeated later. *)
Lemma write_file_repeat_done (p code : pystr) fs fs1 fs2 :
  FS.write_file cwd p code fs = Some fs1 ->
  next_code (List.last (split_on FS.sep p) []) code_blocks = Some code ->
  grows fs1 fs2 ->
  FS.write_file cwd p code fs2 = Some fs2.
Proof.
  intros W N G. pose proof (write_file_grows _ _ _ _ W N) as G0.
  destruct (write_file_inv _ _ _ _ W) as (d & NE & Wk & C & ND & ->).
  unfold FS.write_file. destruct p as [|c p]; [contradiction|].
  rewrite (walk_reached_stable _ _ _ _ _ (grows_trans _ _ _ G0 G) Wk), C.
  set (q := d ++ [List.last (split_on FS.sep (c :: p)) []]) in *.
  destruct (proj2 (G q) code (lookup_insert_eq _ _ _)) as (c' & E & Hc).
  unfold q in Hc. rewrite last_last in Hc. specialize (Hc N). subst c'.
  rewrite E. f_equal. apply insert_id. exact E.
Qed.

(** A write that failed fails again later, when its directory is settled. *)
Lemma write_file_repeat_failed (p code : pystr) fs fs2 :
  FS.write_file cwd p code fs = None ->
  FS.walk fs (FS.start_of cwd p) (removelast (split_on FS.sep p)) <> FS.NoSuchEntry ->
  grows fs fs2 ->
  FS.write_file cwd p code fs2 = None.
Proof.
  unfold FS.write_file. destruct p as [|c p]; [reflexivity|].
  intros W S G.
  destruct (FS.walk fs _ _) as [d| |] eqn:Wk.
  - rewrite (walk_reached_stable _ _ _ _ _ G Wk).
    destruct (FS.classify _); try reflexivity.
    destruct (fs !! _) as [[|content]|] eqn:E; try discriminate.
    rewrite (grows_dir _ _ _ G E). reflexivity.
  - rewrite (walk_blocked_stable _ _ _ _ G Wk). reflexivity.
  - contradiction.
Qed.

Lemma walk_moving cs : forall fs cur, FS.walk fs cur cs = FS.walk fs cur (moving cs).
Proof.
  induction cs as [|c cs IH]; intros fs cur; [reflexivity|].
  cbn [FS.walk moving List.filter].
  destruct (FS.classify c) eqn:C; [apply IH| |];
    cbn [FS.walk]; rewrite C; [apply IH|].
  destruct (fs !! _) as [[|content]|]; try reflexivity. apply IH.
Qed.

End FileSystemFacts.

(** ** Paths *)

Section PathFacts.

Lemma split_on_nonempty sep (s : pystr) : split_on sep s <> [].
Proof.
  destruct s as [|c s]; simpl; [discriminate|].
  destruct (c =? sep)%N; [discriminate|].
  destruct (split_on sep s); discriminate.
Qed.

Lemma split_on_app sep (a b : pystr) :
  split_on sep (a ++ sep :: b) = split_on sep a ++ split_on sep b.
Proof.
  induction a as [|x a IH]; simpl.
  - rewrite N.eqb_refl. reflexivity.
  - destruct (x =? sep)%N; [rewrite IH; reflexivity|].
    rewrite IH. pose proof (split_on_nonempty sep a) as NE.
    destruct (split_on sep a) as [|h t]; [contradiction|reflexivity].
Qed.

Lemma split_on_plain (k : pystr) :
  no_separator k = true -> split_on FS.sep k = [k].
Proof.
  unfold no_separator. rewrite negb_true_iff.
  induction k as [|c k IH]; cbn [existsb split_on]; [reflexivity|].
  rewrite orb_false_iff. intros [Hc Hk].
  rewrite N.eqb_sym, Hc, (IH Hk). reflexivity.
Qed.

Lemma plain_not_absolute (k : pystr) :
  no_separator k = true -> startswith [FS.sep] k = false.
Proof.
  unfold no_separator. rewrite negb_true_iff.
  destruct k as [|c k]; cbn [existsb startswith]; [reflexivity|].
  rewrite orb_false_iff. intros [Hc _].
  rewrite Hc. reflexivity.
Qed.

Lemma endswith_sep_inv (p : pystr) :
  endswith [FS.sep] p = true -> exists p', p = p' ++ [FS.sep].
Proof.
  unfold endswith. intros H. apply startswith_inv in H as [t Ht].
  exists (rev t). apply (f_equal (@rev N)) in Ht.
  rewrite rev_involutive in Ht. rewrite Ht. reflexivity.
Qed.

Lemma start_of_app cwd (p x : pystr) :
  p <> [] -> FS.start_of cwd (p ++ x) = FS.start_of cwd p.
Proof. destruct p as [|c p]; [contradiction|reflexivity]. Qed.

Lemma moving_app (a b : list pystr) : moving (a ++ b) = moving a ++ moving b.
Proof. apply List.filter_app. Qed.

(** The path of an entry whose key holds no separator: the key is its last
    component, and what comes before resolves as the current path does. *)
Lemma join_plain cwd (current_path key : pystr) :
  no_separator key = true ->
  FS.join current_path key = []
  \/ exists cs,
       FS.join current_path key <> []
       /\ split_on FS.sep (FS.join current_path key) = cs ++ [key]
       /\ FS.start_of cwd (FS.join current_path key) = FS.start_of cwd current_path
       /\ moving cs = moving (split_on FS.sep current_path).
Proof.
  intros Hk. unfold FS.join. rewrite (plain_not_absolute _ Hk).
  destruct current_path as [|c cp].
  - cbn [truthy negb orb app]. destruct key as [|k key]; [left; reflexivity|].
    right. exists []. split; [discriminate|].
    split; [apply split_on_plain; exact Hk|].
    split; [|reflexivity].
    unfold FS.start_of. rewrite (plain_not_absolute _ Hk). reflexivity.
  - right. cbn [truthy negb orb].
    destruct (endswith [FS.sep] (c :: cp)) eqn:E.
    + destruct (endswith_sep_inv _ E) as (p' & Ep). rewrite Ep.
      exists (split_on FS.sep p').
      split; [destruct p'; discriminate|].
      rewrite <- app_assoc. cbn [app].
      rewrite split_on_app, (split_on_plain _ Hk).
      split; [reflexivity|].
      split.
      * change (p' ++ FS.sep :: key) with (p' ++ [FS.sep] ++ key).
        rewrite app_assoc, <- Ep. apply start_of_app. discriminate.
      * replace (p' ++ [FS.sep]) with (p' ++ FS.sep :: []) by reflexivity.
        rewrite split_on_app, moving_app. cbn. rewrite app_nil_r. reflexivity.
    + exists (split_on FS.sep (c :: cp)).
      split; [discriminate|].
      change ((c :: cp) ++ [FS.sep] ++ key) with ((c :: cp) ++ FS.sep :: key).
      rewrite split_on_app, (split_on_plain _ Hk).
      split; [reflexivity|]. split; [|reflexivity].
      change ((c :: cp) ++ FS.sep :: key) with ((c :: cp) ++ [FS.sep] ++ key).
      apply start_of_app. discriminate.
Qed.

End PathFacts.

(** ** The materializer *)

(** Induction on a tree: a dict when it holds of the values of its entries,
    and anything that is not a dict. *)
Lemma json_tree_ind (P : json -> Prop) :
  (forall items, Forall (fun kv => P (snd kv)) items -> P (JObject items)) ->
  (forall v, is_dict v = false -> P v) ->
  forall v, P v.
Proof.
  intros Hobj Hleaf.
  fix IH 1. intros v. destruct v as [ |b|n|s|items|items].
  - apply Hleaf. reflexivity.
  - apply Hleaf. reflexivity.
  - apply Hleaf. reflexivity.
  - apply Hleaf. reflexivity.
  - apply Hleaf. reflexivity.
  - apply Hobj.
    induction items as [|[k v] items IHitems]; constructor.
    + apply IH.
    + exact IHitems.
Qed.

Section MaterializerFacts.

Context (cwd : list pystr) (code_blocks : list (pystr * pystr)).

Local Abbreviation walk_tree := (create_folders_and_files cwd).
Local Abbreviation grows := (grows code_blocks).

(** The walk of a dict, entry by entry. *)
Lemma walk_tree_cons current_path key value rest :
  walk_tree current_path (JObject ((key, value) :: rest)) code_blocks =
  (let path := FS.join current_path key in
   (match value with
    | JObject _ =>
        ok <- os_makedirs cwd path ;;
        if ok then
          console_print (FolderCreated path) ;;
          walk_tree path value code_blocks
        else console_print (FolderCreationError path)
    | _ => create_file cwd path key code_blocks
    end) ;;
   walk_tree current_path (JObject rest) code_blocks).
Proof. reflexivity. Qed.

Lemma walk_tree_nil current_path :
  walk_tree current_path (JObject []) code_blocks = ret tt.
Proof. reflexivity. Qed.

Lemma walk_tree_not_dict current_path v w :
  is_dict v = false ->
  walk_tree current_path v code_blocks w = (w, Raise AttributeError).
Proof. destruct v; try reflexivity. discriminate. Qed.

(** An entry that is not a dict, by cases. *)
Lemma create_file_eq path key w :
  create_file cwd path key code_blocks w =
  match next_code key code_blocks with
  | Some code_content =>
      if truthy code_content then
        match FS.write_file cwd path code_content (w_fs w) with
        | Some fs' => (World fs' (w_console w ++ [FileCreated path]) (w_calls w), Ret tt)
        | None => (World (w_fs w) (w_console w ++ [FileCreationError path]) (w_calls w), Ret tt)
        end
      else (World (w_fs w) (w_console w ++ [MissingCodeContent key]) (w_calls w), Ret tt)
  | None => (World (w_fs w) (w_console w ++ [MissingCodeContent key]) (w_calls w), Ret tt)
  end.
Proof.
  unfold create_file. destruct (next_code key code_blocks) as [code|]; [|reflexivity].
  destruct (truthy code); [|reflexivity].
  unfold bind, open_write. destruct (FS.write_file _ _ _ _); reflexivity.
Qed.

(** A directory entry, by cases. *)
Lemma create_folder_eq path (value : json) w :
  (ok <- os_makedirs cwd path ;;
   if ok then console_print (FolderCreated path) ;; walk_tree path value code_blocks
   else console_print (FolderCreationError path)) w =
  let r := FS.makedirs cwd path (w_fs w) in
  if snd r
  then walk_tree path value code_blocks
         (World (fst r) (w_console w ++ [FolderCreated path]) (w_calls w))
  else (World (fst r) (w_console w ++ [FolderCreationError path]) (w_calls w), Ret tt).
Proof.
  unfold bind, os_makedirs, console_print. cbn [fst snd w_fs w_console w_calls].
  destruct (FS.makedirs cwd path (w_fs w)) as [fs' [|]]; reflexivity.
Qed.

(** The walk of a dict returns. *)
Lemma walk_tree_returns : forall tree, is_dict tree = true ->
  forall current_path w, snd (walk_tree current_path tree code_blocks w) = Ret tt.
Proof.
  induction tree as [items IH|v Hv] using json_tree_ind; [|congruence].
  intros _. induction IH as [|[key value] rest Hvalue _ IHrest]; intros current_path w.
  - reflexivity.
  - rewrite walk_tree_cons. cbn zeta. unfold bind at 1.
    match goal with |- context [match ?e w with _ => _ end] =>
      assert (E : snd (e w) = Ret tt); [|destruct (e w) as [wa r]; cbn in E; subst r; apply IHrest]
    end.
    cbn [snd] in Hvalue.
    destruct value; try (rewrite create_file_eq;
      destruct (next_code key code_blocks) as [code|]; [|reflexivity];
      destruct (truthy code); [|reflexivity];
      destruct (FS.write_file _ _ _ _); reflexivity).
    rewrite create_folder_eq. cbn zeta.
    destruct (snd (FS.makedirs _ _ _)); [|reflexivity].
    apply Hvalue. reflexivity.
Qed.

Lemma plain_tree_cons key value rest :
  plain_tree (JObject ((key, value) :: rest))
  = no_separator key && plain_tree value && plain_tree (JObject rest).
Proof. reflexivity. Qed.

(** The directory of an entry's path is settled when the current path is. *)
Lemma entry_directory_settled current_path key fs :
  no_separator key = true ->
  settled cwd current_path fs ->
  FS.join current_path key = []
  \/ (FS.join current_path key <> []
      /\ List.last (split_on FS.sep (FS.join current_path key)) [] = key
      /\ FS.walk fs (FS.start_of cwd (FS.join current_path key))
           (removelast (split_on FS.sep (FS.join current_path key)))
         <> FS.NoSuchEntry).
Proof.
  intros Hk S. destruct (join_plain cwd current_path key Hk) as [E|(cs & NE & Sp & St & Mv)].
  - left. exact E.
  - right. split; [exact NE|]. rewrite Sp, St, last_last, removelast_last.
    split; [reflexivity|].
    rewrite walk_moving, Mv, <- walk_moving. exact S.
Qed.

(** A file entry: what it writes stays, and doing it again later changes
    nothing. *)
Lemma create_file_twice current_path key w :
  no_separator key = true ->
  settled cwd current_path (w_fs w) ->
  let path := FS.join current_path key in
  grows (w_fs w) (w_fs (fst (create_file cwd path key code_blocks w)))
  /\ forall w2,
       grows (w_fs (fst (create_file cwd path key code_blocks w))) (w_fs w2) ->
       w_fs (fst (create_file cwd path key code_blocks w2)) = w_fs w2.
Proof.
  intros Hk S path. subst path. set (path := FS.join current_path key).
  rewrite create_file_eq.
  destruct (next_code key code_blocks) as [code|] eqn:N.
  2: { split; [apply grows_refl|]. intros w2 _. rewrite create_file_eq, N. reflexivity. }
  destruct (truthy code) eqn:T.
  2: { split; [apply grows_refl|]. intros w2 _. rewrite create_file_eq, N, T. reflexivity. }
  destruct (entry_directory_settled current_path key (w_fs w) Hk S) as [E|(NE & L & W)].
  - fold path in E. clearbody path. subst path. cbn [FS.write_file fst w_fs].
    split; [apply grows_refl|]. intros w2 _.
    rewrite create_file_eq, N, T. reflexivity.
  - fold path in NE, L, W. clearbody path.
    destruct (FS.write_file cwd path code (w_fs w)) as [fs1|] eqn:Wr; cbn [fst w_fs].
    + assert (N' : next_code (List.last (split_on FS.sep path) []) code_blocks = Some code)
        by (rewrite L; exact N).
      split; [exact (write_file_grows code_blocks cwd _ _ _ _ Wr N')|].
      intros w2 G. rewrite create_file_eq, N, T.
      rewrite (write_file_repeat_done code_blocks cwd _ _ _ _ _ Wr N' G). reflexivity.
    + split; [apply grows_refl|]. intros w2 G. rewrite create_file_eq, N, T.
      rewrite (write_file_repeat_failed code_blocks cwd _ _ _ _ Wr W G). reflexivity.
Qed.

(** The walk of a tree without separators in its keys: what it creates
    stays, and walking again later changes no file and no directory. *)
Lemma walk_tree_twice : forall tree, plain_tree tree = true ->
  forall current_path w,
    settled cwd current_path (w_fs w) ->
    grows (w_fs w) (w_fs (fst (walk_tree current_path tree code_blocks w)))
    /\ forall w2,
         grows (w_fs (fst (walk_tree current_path tree code_blocks w))) (w_fs w2) ->
         w_fs (fst (walk_tree current_path tree code_blocks w2)) = w_fs w2.
Proof.
  induction tree as [items IH|v Hv] using json_tree_ind.
  2: { intros _ current_path w _. rewrite walk_tree_not_dict by exact Hv.
       split; [apply grows_refl|]. intros w2 _.
       rewrite walk_tree_not_dict by exact Hv. reflexivity. }
  induction IH as [|[key value] rest Hvalue _ IHrest]; intros Hp current_path w S.
  - split; [apply grows_refl|]. intros w2 _. reflexivity.
  - rewrite plain_tree_cons in Hp.
    apply andb_true_iff in Hp as [Hp Hrest]. apply andb_true_iff in Hp as [Hk Hv].
    cbn [snd] in Hvalue. specialize (Hvalue Hv). specialize (IHrest Hrest).
    (* the entry, as a computation of its own *)
    set (path := FS.join current_path key).
    set (entry := match value with
                  | JObject _ =>
                      ok <- os_makedirs cwd path ;;
                      if ok then
                        console_print (FolderCreated path) ;;
                        walk_tree path value code_blocks
                      else console_print (FolderCreationError path)
                  | _ => create_file cwd path key code_blocks
                  end).
    assert (Entry :
      (forall w', snd (entry w') = Ret tt)
      /\ grows (w_fs w) (w_fs (fst (entry w)))
      /\ forall w2, grows (w_fs (fst (entry w))) (w_fs w2) ->
                    w_fs (fst (entry w2)) = w_fs w2).
    { destruct (is_dict value) eqn:D.
      - assert (Ee : forall w', entry w' =
          let r := FS.makedirs cwd path (w_fs w') in
          if snd r
          then walk_tree path value code_blocks
                 (World (fst r) (w_console w' ++ [FolderCreated path]) (w_calls w'))
          else (World (fst r) (w_console w' ++ [FolderCreationError path]) (w_calls w'),
                Ret tt)).
        { intros w'. unfold entry. destruct value; try discriminate.
          apply create_folder_eq. }
        split; [|split].
        + intros w'. rewrite Ee. cbn zeta.
          destruct (snd (FS.makedirs _ _ _)); [|reflexivity].
          apply walk_tree_returns. exact D.
        + rewrite Ee. cbn zeta.
          pose proof (makedirs_grows code_blocks cwd path (w_fs w)) as G0.
          destruct (FS.makedirs cwd path (w_fs w)) as [fsa ok] eqn:M. cbn [fst snd] in *.
          destruct ok; [|exact G0].
          destruct (makedirs_repeat code_blocks cwd _ _ _ _ _ M (grows_refl _ fsa))
            as (_ & Sa).
          eapply grows_trans; [exact G0|].
          exact (proj1 (Hvalue path
                   (World fsa (w_console w ++ [FolderCreated path]) (w_calls w)) Sa)).
        + intros w2. rewrite !Ee. cbn zeta.
          pose proof (makedirs_grows code_blocks cwd path (w_fs w)) as G0.
          destruct (FS.makedirs cwd path (w_fs w)) as [fsa ok] eqn:M. cbn [fst snd] in *.
          destruct ok.
          * destruct (makedirs_repeat code_blocks cwd _ _ _ _ _ M (grows_refl _ fsa))
              as (_ & Sa).
            destruct (Hvalue path
                        (World fsa (w_console w ++ [FolderCreated path]) (w_calls w)) Sa)
              as (G1 & Again).
            intros G2. cbn [w_fs] in G1.
            destruct (makedirs_repeat code_blocks cwd _ _ _ _ _ M
                        (grows_trans _ _ _ _ G1 G2)) as (-> & _).
            cbn [fst snd]. rewrite Again; [reflexivity|exact G2].
          * intros G2. cbn [fst w_fs] in G2.
            destruct (makedirs_repeat code_blocks cwd _ _ _ _ _ M G2) as (-> & _).
            reflexivity.
      - assert (Ee : entry = create_file cwd path key code_blocks)
          by (unfold entry; destruct value; try reflexivity; discriminate).
        rewrite Ee. split.
        + intros w'. rewrite create_file_eq.
          destruct (next_code key code_blocks) as [code|]; [|reflexivity].
          destruct (truthy code); [|reflexivity].
          destruct (FS.write_file _ _ _ _); reflexivity.
        + apply create_file_twice; assumption. }
    destruct Entry as (Eret & Eg & Eagain).
    rewrite walk_tree_cons. cbn zeta. fold path. fold entry.
    unfold bind at 1 2.
    pose proof (Eret w) as R1.
    destruct (entry w) as [wa ra] eqn:Ew. cbn [fst snd] in *. subst ra.
    assert (Sa : settled cwd current_path (w_fs wa))
      by (exact (walk_settled_stable code_blocks _ _ _ _ Eg S)).
    destruct (IHrest current_path wa Sa) as (Gr & Ragain).
    split; [eapply grows_trans; eassumption|].
    intros w2 G2. unfold bind.
    pose proof (Eret w2) as R2. pose proof (Eagain w2 (grows_trans _ _ _ _ Gr G2)) as F2.
    destruct (entry w2) as [w2a r2a]. cbn [fst snd] in *. subst r2a.
    rewrite <- F2. apply Ragain. rewrite F2. exact G2.
Qed.

(** The materializer: the root directory, then the walk. *)
Lemma create_folder_structure_eq project_name tree w :
  create_folder_structure cwd project_name tree code_blocks w =
  let r := FS.makedirs cwd project_name (w_fs w) in
  walk_tree project_name tree code_blocks
    (World (fst r)
       (w_console w ++ [if snd r then ProjectFolderCreated project_name
                        else ProjectFolderError project_name])
       (w_calls w)).
Proof.
  unfold create_folder_structure, bind, os_makedirs, console_print.
  cbn [fst snd w_fs w_console w_calls].
  destruct (FS.makedirs cwd project_name (w_fs w)) as [fs' [|]]; reflexivity.
Qed.

(** C7, amended: when no key of the tree holds a path separator, running the
    materializer a second time with the same project name, tree and code
    bodies leaves every file and directory as the first run left them,
    whatever the file system held before. *)
Theorem materializer_idempotent
    (project_name : pystr) (tree : json) (fs : gmap (list pystr) node) :
  plain_tree tree = true ->
  materialize cwd project_name tree code_blocks
    (materialize cwd project_name tree code_blocks fs)
  = materialize cwd project_name tree code_blocks fs.
Proof.
  intros Hp. unfold materialize. rewrite !create_folder_structure_eq. cbn zeta.
  cbn [initial_world w_fs w_console w_calls].
  pose proof (makedirs_grows code_blocks cwd project_name fs) as G0.
  destruct (FS.makedirs cwd project_name fs) as [fsa ok] eqn:M. cbn [fst snd] in *.
  destruct (makedirs_repeat code_blocks cwd _ _ _ _ _ M (grows_refl _ fsa)) as (_ & Sa).
  set (wa := World fsa _ _).
  destruct (walk_tree_twice tree Hp project_name wa Sa) as (G1 & Again).
  set (fs1 := w_fs (fst (walk_tree project_name tree code_blocks wa))) in *.
  destruct (makedirs_repeat code_blocks cwd _ _ _ _ _ M G1) as (-> & _).
  cbn [fst snd]. rewrite Again; [reflexivity|apply grows_refl].
Qed.

Lemma next_code_first key (code : pystr) :
  next_code key code_blocks = Some code
  <-> exists before after,
        code_blocks = before ++ (key, code) :: after
        /\ Forall (fun fc => fst fc <> key) before.
Proof.
  induction code_blocks as [|[file c] blocks IH]; cbn [next_code].
  - split; [discriminate|]. intros (before & after & E & _).
    destruct before; discriminate.
  - destruct (PyStr.eqb file key) eqn:E.
    + apply eqb_eq in E. subst file. split.
      * intros [= ->]. exists [], blocks. split; [reflexivity|constructor].
      * intros (before & after & Eq & F). destruct before as [|[f0 c0] before].
        -- injection Eq as ->. reflexivity.
        -- injection Eq as -> -> _. inversion F; subst. cbn in *. contradiction.
    + apply eqb_neq in E. rewrite IH. split.
      * intros (before & after & -> & F). exists ((file, c) :: before), after.
        split; [reflexivity|constructor; [exact E|exact F]].
      * intros (before & after & Eq & F). destruct before as [|[f0 c0] before].
        -- injection Eq as -> _. contradiction.
        -- injection Eq as -> -> ->. inversion F; subst. eauto.
Qed.

(** C5, amended: for an entry whose value is not a dict, the code looked up
    is that of the first pair whose filename equals the key.  When that code
    is not empty it is written as it is to the path of the entry (or the
    failure of the write is reported); when there is no such pair, or its
    code is empty, the missing-code warning is printed and nothing is
    written.  In every case the walk goes on with the remaining entries. *)
Theorem file_entry_written_or_skipped
    (current_path key : pystr) (value : json) (rest : list (pystr * json)) (w : world) :
  is_dict value = false ->
  let path := FS.join current_path key in
  let continue w' := walk_tree current_path (JObject rest) code_blocks w' in
  let walk := walk_tree current_path (JObject ((key, value) :: rest)) code_blocks w in
  (forall code : pystr,
      next_code key code_blocks = Some code
      <-> exists before after,
            code_blocks = before ++ (key, code) :: after
            /\ Forall (fun fc => fst fc <> key) before)
  /\ (forall (code : pystr) fs',
        next_code key code_blocks = Some code -> code <> [] ->
        FS.write_file cwd path code (w_fs w) = Some fs' ->
        walk = continue (World fs' (w_console w ++ [FileCreated path]) (w_calls w))
        /\ exists d, fs' = <[d ++ [List.last (split_on FS.sep path) []] := File code]> (w_fs w))
  /\ (forall code : pystr,
        next_code key code_blocks = Some code -> code <> [] ->
        FS.write_file cwd path code (w_fs w) = None ->
        walk = continue (World (w_fs w) (w_console w ++ [FileCreationError path]) (w_calls w)))
  /\ (next_code key code_blocks = None \/ next_code key code_blocks = Some [] ->
        walk = continue (World (w_fs w) (w_console w ++ [MissingCodeContent key]) (w_calls w))).
Proof.
  intros D path continue walk.
  assert (E : walk = match create_file cwd path key code_blocks w with
                     | (w', Ret _) => continue w'
                     | (w', Raise e) => (w', Raise e)
                     | (w', OutOfFuel) => (w', OutOfFuel)
                     end).
  { unfold walk. rewrite walk_tree_cons. cbn zeta. fold path. unfold bind.
    destruct value; try discriminate; reflexivity. }
  rewrite create_file_eq in E.
  split; [intros code; apply next_code_first|]. split; [|split].
  - intros code fs' N T W. rewrite N, W in E.
    destruct code; [contradiction|]. split; [exact E|].
    destruct (write_file_inv cwd _ _ _ _ W) as (d & _ & _ & _ & _ & ->). eauto.
  - intros code N T W. rewrite N, W in E. destruct code; [contradiction|exact E].
  - intros [N|N]; rewrite N in E; exact E.
Qed.

End MaterializerFacts.

(** ** After the refiner *)

Section MainFacts.

Context (cwd : list pystr).
Context (json_loads : pystr -> option json).
Context (findall_code_blocks : pystr -> list (pystr * pystr)).

Local Abbreviation finish := (after_refine cwd json_loads findall_code_blocks).

(** C6: when the text between the tags does not decode, the error and the
    text are reported and the tree is the empty dict; walking the empty dict
    does nothing, so the run goes on to the exchange log with the project
    folder as the only thing materialized.  When the text decodes, the decoded
    value is the tree handed to the materializer. *)
Theorem undecodable_tree_is_empty_tree
    (objective sanitized_objective timestamp : pystr)
    (task_exchanges : list (pystr * pystr))
    (refined_output group : pystr) (w : world) :
  search_folder_structure refined_output = Some group ->
  let json_string := strip group in
  let project_name := project_name_of sanitized_objective refined_output in
  let code_blocks := findall_code_blocks refined_output in
  let log := write_exchange_log cwd objective sanitized_objective timestamp
               task_exchanges refined_output in
  (json_loads json_string = None ->
     let reported :=
       World (w_fs w)
         (w_console w ++ [JSONParsingError; InvalidJSONString json_string])
         (w_calls w) in
     let root := FS.makedirs cwd project_name (w_fs w) in
     extract_folder_structure json_loads refined_output w = (reported, Ret (JObject []))
     /\ (forall current_path blocks w',
           create_folders_and_files cwd current_path (JObject []) blocks w' = (w', Ret tt))
     /\ finish objective sanitized_objective timestamp task_exchanges refined_output w
        = log (World (fst root)
                 (w_console reported
                  ++ [if snd root then ProjectFolderCreated project_name
                      else ProjectFolderError project_name])
                 (w_calls w)))
  /\ (forall tree,
        json_loads json_string = Some tree ->
        extract_folder_structure json_loads refined_output w = (w, Ret tree)
        /\ finish objective sanitized_objective timestamp task_exchanges refined_output w
           = (create_folder_structure cwd project_name tree code_blocks ;; log) w).
Proof.
  intros S json_string project_name code_blocks log. split.
  - intros N reported root.
    assert (E : extract_folder_structure json_loads refined_output w
                = (reported, Ret (JObject []))).
    { unfold extract_folder_structure. rewrite S. fold json_string. rewrite N.
      unfold bind, console_print, ret. cbn [w_fs w_console w_calls].
      rewrite <- app_assoc. reflexivity. }
    split; [exact E|]. split; [reflexivity|].
    unfold after_refine. unfold bind at 1. rewrite E.
    fold project_name code_blocks log. unfold bind at 1.
    rewrite create_folder_structure_eq. cbn zeta.
    rewrite walk_tree_nil. reflexivity.
  - intros tree N.
    assert (E : extract_folder_structure json_loads refined_output w = (w, Ret tree)).
    { unfold extract_folder_structure. rewrite S. fold json_string. rewrite N.
      reflexivity. }
    split; [exact E|].
    unfold after_refine. unfold bind at 1. rewrite E. reflexivity.
Qed.

(** C10: when the text between the tags decodes to a value that is not a
    dict, the walk raises [AttributeError] at once, for any path and code
    bodies; nothing catches it, so the run stops there: the project folder has
    been tried, and the exchange log is never written. *)
Theorem non_mapping_tree_aborts
    (objective sanitized_objective timestamp : pystr)
    (task_exchanges : list (pystr * pystr))
    (refined_output group : pystr) (tree : json) (w : world) :
  search_folder_structure refined_output = Some group ->
  json_loads (strip group) = Some tree ->
  is_dict tree = false ->
  let project_name := project_name_of sanitized_objective refined_output in
  let root := FS.makedirs cwd project_name (w_fs w) in
  (forall current_path blocks w',
      create_folders_and_files cwd current_path tree blocks w' = (w', Raise AttributeError))
  /\ finish objective sanitized_objective timestamp task_exchanges refined_output w
     = (World (fst root)
          (w_console w ++ [if snd root then ProjectFolderCreated project_name
                           else ProjectFolderError project_name])
          (w_calls w),
        Raise AttributeError).
Proof.
  intros S N D project_name root. split.
  - intros current_path blocks w'. apply walk_tree_not_dict. exact D.
  - unfold after_refine. unfold bind at 1.
    unfold extract_folder_structure. rewrite S, N. unfold ret at 1.
    fold project_name. unfold bind at 1.
    rewrite create_folder_structure_eq. cbn zeta.
    rewrite walk_tree_not_dict by exact D. reflexivity.
Qed.

End MainFacts.

(** ** Concrete runs *)

Section ConcreteRuns.

Import Examples.

(** C1 as stated fails: the reply below contains the marker, the loop stops,
    and the final text, after the deletion of the marker and the stripping,
    is the marker itself. *)
Lemma marker_survives_deletion :
  contains MARKER nested_marker = true
  /\ snd (loop_body (scripted [nested_marker]) orchestrator_model subagent_model 1
            (str "objective") None initial_vars w0)
     = Ret (DONE MARKER)
  /\ contains MARKER MARKER = true.
Proof. vm_compute. auto. Qed.

(** C5 as stated fails: a pair with the filename of the entry exists, its
    code is empty, and the materializer prints the missing-code warning and
    writes no file. *)
Lemma empty_code_is_reported_missing :
  next_code (str "a.py") empty_code = Some []
  /\ create_folder_structure [] project empty_code_tree empty_code w0
     = (World (<[[project] := Dir]> ∅)
          [ProjectFolderCreated project; MissingCodeContent (str "a.py")] [],
        Ret tt).
Proof. split; vm_compute; reflexivity. Qed.

(** C7 as stated fails: the first key names a file in a directory that the
    second key creates; the first run cannot write the file, the second run
    does. *)
Lemma late_parent_not_idempotent :
  materialize [] project late_parent_tree late_parent_code ∅
    !! [project; str "d"; str "f"] = None
  /\ materialize [] project late_parent_tree late_parent_code
       (materialize [] project late_parent_tree late_parent_code ∅)
     !! [project; str "d"; str "f"] = Some (File (str "x")).
Proof. split; vm_compute; reflexivity. Qed.

(** C3 as stated fails: the prompt of the first orchestrator call contains
    the seed content, and so does the prompt of the second sub-agent call,
    through the rendered task history. *)
Lemma seed_content_in_other_prompts :
  match w_calls (fst two_steps_run) with
  | first_orchestrator :: _ :: _ :: second_subagent :: _ =>
      c_role first_orchestrator = Orchestrator
      /\ contains seed (c_content first_orchestrator) = true
      /\ c_role second_subagent = SubAgent
      /\ contains seed (c_content second_subagent) = true
  | _ => False
  end
  /\ returned (snd two_steps_run) = true.
Proof. vm_compute. auto. Qed.

(** The transition of the loop on a reply without the marker. *)
Lemma loop_body_transition_witness :
  snd (loop_body (scripted [str "step one"; str "result one"])
         orchestrator_model subagent_model 1 (str "objective") None initial_vars w0)
  = Ret (AWAITING_NEXT_STEP
           {| task_exchanges := [(str "step one", str "result one")];
              haiku_tasks := [{| task := str "step one"; task_result := str "result one" |}];
              file_content_for_haiku := None |}).
Proof.
  pose (chat := scripted [str "step one"; str "result one"]).
  destruct (loop_body_transition chat orchestrator_model subagent_model 1
              (str "objective") None initial_vars w0)
    as (w1 & Hask & _ & _ & H).
  assert (E1 : w1 = fst (ask_orchestrator chat orchestrator_model (str "objective") None
                           initial_vars w0))
    by (rewrite Hask; reflexivity).
  destruct H as [_ H]; [vm_compute; reflexivity|].
  fold chat.
  rewrite (H (fst (haiku_sub_agent chat subagent_model 1 (str "step one") [] false w1))
             (str "result one")); [reflexivity|].
  rewrite E1. vm_compute. reflexivity.
Defined.

(** The sub-agent on a long reply followed by a short one. *)
Lemma haiku_continuation_concatenates_witness :
  snd (haiku_sub_agent (scripted [long_reply; str "tail"]) subagent_model 2
         (str "task") [] false w0)
  = Ret (long_reply ++ str "tail").
Proof.
  destruct (haiku_continuation_concatenates (scripted [long_reply; str "tail"])
              subagent_model (str "task") [] w0 long_reply (str "tail") 2)
    as (w' & E & _).
  - reflexivity.
  - apply Nat.leb_le. vm_compute. reflexivity.
  - reflexivity.
  - apply Nat.ltb_lt. vm_compute. reflexivity.
  - apply le_n.
  - rewrite E. reflexivity.
Defined.

(** The refiner on a long reply followed by a short one: both requests carry
    the same prompt. *)
Lemma refine_continuation_resends_prompt_witness :
  List.map c_content
    (w_calls (fst (opus_refine (scripted [long_reply; str "tail"]) refiner_model 2
                     (str "objective") [str "result"] (str "12-00-00") (str "objective")
                     false w0)))
  = [refine_prompt (str "objective") [str "result"];
     refine_prompt (str "objective") [str "result"]].
Proof.
  destruct (refine_continuation_resends_prompt (scripted [long_reply; str "tail"])
              refiner_model (str "objective") [str "result"] (str "12-00-00")
              (str "objective") w0 long_reply (str "tail") 2)
    as (w' & E & C & _).
  - reflexivity.
  - apply Nat.leb_le. vm_compute. reflexivity.
  - reflexivity.
  - apply Nat.ltb_lt. vm_compute. reflexivity.
  - apply le_n.
  - rewrite E. cbn [fst]. rewrite C. reflexivity.
Defined.

(** The run of two sub-tasks: the requests the sub-agent received are those
    of two dispatches, the first with the seed block after its instruction,
    the second with the orchestrator's reply as its instruction. *)
Lemma seed_content_single_use_witness :
  exists ns,
    length ns = 2
    /\ List.map c_content (subagent_calls (fst two_steps_run))
       = subagent_requests []
           [(str "step one" ++ seed_block seed, str "result one");
            (str "step two", str "result two")] ns.
Proof.
  destruct (seed_content_single_use two_steps orchestrator_model subagent_model 3
              (str "objective") seed ∅)
    as (_ & exchanges & ns & _ & _ & Hl & Hr & Hv).
  - discriminate.
  - vm_compute in Hv. destruct Hv as (<- & _).
    exists ns. split; [exact Hl|exact Hr].
Defined.

(** The loop stops on the run of two sub-tasks, whose third orchestrator
    reply has the marker. *)
Lemma loop_has_no_iteration_bound_witness :
  exists fuel,
    returned (snd (orchestration_loop two_steps orchestrator_model subagent_model fuel
                     (str "objective") (Some seed) initial_vars (initial_world ∅)))
    = true.
Proof.
  destruct (loop_has_no_iteration_bound (str "objective") (Some seed)) as [H _].
  destruct (H two_steps orchestrator_model subagent_model ∅) as [[_ Back] _].
  apply Back. exists 3.
  apply List.Exists_exists.
  eexists. split; [vm_compute; right; right; left; reflexivity|].
  vm_compute. reflexivity.
Defined.

(** A file entry whose code is found and written. *)
Lemma file_entry_written_or_skipped_witness :
  w_fs (fst (create_folders_and_files [] project one_file_tree one_file_code project_world))
    !! [project; str "main.py"]
  = Some (File (str "print(1)")).
Proof.
  destruct (file_entry_written_or_skipped [] one_file_code project (str "main.py")
              JNull [] project_world eq_refl)
    as (_ & H & _).
  destruct (H (str "print(1)")
              (<[[project; str "main.py"] := File (str "print(1)")]> (w_fs project_world)))
    as [E _].
  - reflexivity.
  - discriminate.
  - vm_compute. reflexivity.
  - unfold one_file_tree. rewrite E. vm_compute. reflexivity.
Defined.

(** The materializer twice on a tree of plain names. *)
Lemma materializer_idempotent_witness :
  plain_tree small_tree = true
  /\ materialize [] project small_tree small_code
       (materialize [] project small_tree small_code ∅)
     = materialize [] project small_tree small_code ∅.
Proof.
  split; [reflexivity|].
  apply (materializer_idempotent [] small_code project small_tree ∅).
  reflexivity.
Defined.

(** A tree that does not decode. *)
Lemma undecodable_tree_is_empty_tree_witness :
  extract_folder_structure decoder undecodable_output w0
  = (World ∅ [JSONParsingError; InvalidJSONString (str "oops")] [], Ret (JObject [])).
Proof.
  destruct (undecodable_tree_is_empty_tree [] decoder no_code_blocks
              (str "objective") (str "objective") (str "12-00-00") []
              undecodable_output (str "oops") w0)
    as [H _].
  - vm_compute. reflexivity.
  - destruct H as (E & _); [vm_compute; reflexivity|].
    rewrite E. vm_compute. reflexivity.
Defined.

(** A tree that decodes to a list. *)
Lemma non_mapping_tree_aborts_witness :
  snd (after_refine [] decoder no_code_blocks (str "objective") (str "objective")
         (str "12-00-00") [] list_output w0)
  = Raise AttributeError.
Proof.
  destruct (non_mapping_tree_aborts [] decoder no_code_blocks
              (str "objective") (str "objective") (str "12-00-00") []
              list_output (str " [] ") (JArray []) w0)
    as [_ E].
  - vm_compute. reflexivity.
  - vm_compute. reflexivity.
  - reflexivity.
  - rewrite E. reflexivity.
Defined.

End ConcreteRuns.

(** * Further properties *)

(** ** Chains of continuations *)

Section ChainFacts.

Context (chat : list call -> pystr -> pystr -> pystr).
Context (ORCHESTRATOR_MODEL SUBAGENT_MODEL REFINER_MODEL : pystr).

Local Abbreviation haiku := (haiku_sub_agent chat SUBAGENT_MODEL).
Local Abbreviation refine := (opus_refine chat REFINER_MODEL).

Lemma haiku_chain (longs : list pystr) : forall prompt tasks continuation w short fuel,
  answers chat (w_calls w) SubAgent SUBAGENT_MODEL
    (List.combine
       (haiku_full_prompt prompt tasks continuation
        :: repeat (haiku_full_prompt continuation_prompt tasks true) (length longs))
       (longs ++ [short])) ->
  Forall (fun r : pystr => THRESHOLD <= length r) longs ->
  length short < THRESHOLD ->
  length longs < fuel ->
  exists w',
    haiku fuel prompt tasks continuation w = (w', Ret (List.concat (longs ++ [short])))
    /\ w_calls w' = w_calls w ++ logged SubAgent SUBAGENT_MODEL
         (List.combine
            (haiku_full_prompt prompt tasks continuation
             :: repeat (haiku_full_prompt continuation_prompt tasks true) (length longs))
            (longs ++ [short])).
Proof.
  induction longs as [|long longs IH]; intros prompt tasks continuation w short fuel A L S F.
  - destruct fuel as [|fuel]; [cbn in F; lia|].
    cbn in A. destruct A as [A _].
    rewrite haiku_step. cbn zeta. rewrite A.
    replace (may_be_truncated short) with false
      by (symmetry; apply Nat.leb_gt; exact S).
    eexists. split; [cbn; rewrite app_nil_r; reflexivity|reflexivity].
  - destruct fuel as [|fuel]; [cbn in F; lia|].
    cbn [length repeat List.combine app answers] in A. destruct A as [A1 A2].
    apply Forall_cons in L as [L1 L2].
    rewrite haiku_step. cbn zeta. rewrite A1.
    replace (may_be_truncated long) with true
      by (symmetry; apply Nat.leb_le; exact L1).
    cbn [w_fs w_console w_calls].
    match goal with |- context [haiku fuel ?p ?t ?c ?ww] =>
      destruct (IH p t c ww short fuel) as (w2 & E & C)
    end.
    + exact A2.
    + exact L2.
    + exact S.
    + cbn in F. lia.
    + rewrite E. eexists. split; [reflexivity|].
      cbn [w_calls]. rewrite C. cbn [w_calls length repeat List.combine app logged List.map fst snd].
      rewrite <- app_assoc. reflexivity.
Qed.

(** X1: a chain of continuations of any length.  When the service answers
    the sub-agent with any number of texts of at least 4000 characters and
    then with a shorter one, the sub-agent returns all the texts concatenated
    in order; the first request carries the instruction and every later one
    the continuation prompt with the same history; there is one call per
    text. *)
Theorem haiku_continuation_chain
    (prompt : pystr) (previous_haiku_tasks : list TaskRecord) (w : world)
    (longs : list pystr) (short : pystr) (fuel : nat) :
  let exchanges :=
    List.combine
      (haiku_full_prompt prompt previous_haiku_tasks false
       :: repeat (haiku_full_prompt continuation_prompt previous_haiku_tasks true)
            (length longs))
      (longs ++ [short]) in
  answers chat (w_calls w) SubAgent SUBAGENT_MODEL exchanges ->
  Forall (fun r : pystr => THRESHOLD <= length r) longs ->
  length short < THRESHOLD ->
  length longs < fuel ->
  exists w',
    haiku fuel prompt previous_haiku_tasks false w
      = (w', Ret (List.concat (longs ++ [short])))
    /\ w_calls w' = w_calls w ++ logged SubAgent SUBAGENT_MODEL exchanges
    /\ length (logged SubAgent SUBAGENT_MODEL exchanges) = S (length longs).
Proof.
  intros exchanges A L S F.
  destruct (haiku_chain longs prompt previous_haiku_tasks false w short fuel A L S F)
    as (w' & E & C).
  exists w'. split; [exact E|]. split; [exact C|].
  unfold exchanges, logged.
  rewrite length_map, List.length_combine, length_app. cbn [length].
  rewrite repeat_length. lia.
Qed.

(** X2: no bound on the continuations.  When every reply of the service to
    the sub-agent has at least 4000 characters, the sub-agent never returns:
    whatever the fuel, it is used up, with one call made per unit of fuel. *)
Theorem haiku_unbounded_continuation :
  (forall calls content, THRESHOLD <= length (chat calls SUBAGENT_MODEL content)) ->
  forall fuel prompt previous_haiku_tasks continuation w,
    snd (haiku fuel prompt previous_haiku_tasks continuation w) = OutOfFuel
    /\ length (w_calls (fst (haiku fuel prompt previous_haiku_tasks continuation w)))
       = length (w_calls w) + fuel.
Proof.
  intros Long. induction fuel as [|fuel IH]; intros prompt tasks continuation w.
  - cbn. split; [reflexivity|lia].
  - rewrite haiku_step. cbn zeta.
    replace (may_be_truncated _) with true
      by (symmetry; apply Nat.leb_le; apply Long).
    match goal with |- context [haiku fuel ?p ?t ?c ?ww] =>
      destruct (IH p t c ww) as (E & C); destruct (haiku fuel p t c ww) as [w2 r]
    end.
    cbn [fst snd] in E, C. subst r. cbn [fst snd]. split; [reflexivity|].
    rewrite C. cbn [w_calls]. rewrite length_app. cbn [length]. lia.
Qed.

Lemma refine_chain (longs : list pystr) :
  forall objective sub_task_results filename projectname continuation w short fuel,
  answers chat (w_calls w) Refiner REFINER_MODEL
    (List.combine (repeat (refine_prompt objective sub_task_results) (S (length longs)))
       (longs ++ [short])) ->
  Forall (fun r : pystr => THRESHOLD <= length r) longs ->
  length short < THRESHOLD ->
  length longs < fuel ->
  exists w',
    refine fuel objective sub_task_results filename projectname continuation w
      = (w', Ret (List.concat (longs ++ [short])))
    /\ w_calls w' = w_calls w ++ logged Refiner REFINER_MODEL
         (List.combine (repeat (refine_prompt objective sub_task_results) (S (length longs)))
            (longs ++ [short])).
Proof.
  induction longs as [|long longs IH];
    intros objective results filename projectname continuation w short fuel A L S F.
  - destruct fuel as [|fuel]; [cbn in F; lia|].
    cbn in A. destruct A as [A _].
    rewrite refine_step. cbn zeta. rewrite A.
    replace (may_be_truncated short) with false
      by (symmetry; apply Nat.leb_gt; exact S).
    eexists. split; [cbn; rewrite app_nil_r; reflexivity|reflexivity].
  - destruct fuel as [|fuel]; [cbn in F; lia|].
    cbn [length repeat List.combine app answers] in A. destruct A as [A1 A2].
    apply Forall_cons in L as [L1 L2].
    rewrite refine_step. cbn zeta. rewrite A1.
    replace (may_be_truncated long) with true
      by (symmetry; apply Nat.leb_le; exact L1).
    cbn [w_fs w_console w_calls].
    match goal with |- context [refine fuel ?o ?r ?f ?p ?c ?ww] =>
      destruct (IH o r f p c ww short fuel) as (w2 & E & C)
    end.
    + exact A2.
    + exact L2.
    + exact S.
    + cbn in F. lia.
    + rewrite E. eexists. split; [reflexivity|].
      cbn [w_calls]. rewrite C. cbn [w_calls length repeat List.combine app logged List.map fst snd].
      rewrite <- app_assoc. reflexivity.
Qed.

(** X3: a chain of continuations of the refiner.  Whatever the values of
    [filename], [projectname] and [continuation], every request of the chain
    carries the same prompt, built from the objective and the sub-task
    results alone, and the refiner returns the replies concatenated in
    order. *)
Theorem refine_continuation_chain
    (objective : pystr) (sub_task_results : list pystr)
    (filename projectname : pystr) (continuation : bool) (w : world)
    (longs : list pystr) (short : pystr) (fuel : nat) :
  let exchanges :=
    List.combine (repeat (refine_prompt objective sub_task_results) (S (length longs)))
      (longs ++ [short]) in
  answers chat (w_calls w) Refiner REFINER_MODEL exchanges ->
  Forall (fun r : pystr => THRESHOLD <= length r) longs ->
  length short < THRESHOLD ->
  length longs < fuel ->
  exists w',
    refine fuel objective sub_task_results filename projectname continuation w
      = (w', Ret (List.concat (longs ++ [short])))
    /\ w_calls w' = w_calls w ++ logged Refiner REFINER_MODEL exchanges
    /\ Forall (fun c => c_content c = refine_prompt objective sub_task_results)
         (logged Refiner REFINER_MODEL exchanges).
Proof.
  intros exchanges A L S F.
  destruct (refine_chain longs objective sub_task_results filename projectname
              continuation w short fuel A L S F) as (w' & E & C).
  exists w'. split; [exact E|]. split; [exact C|].
  unfold exchanges, logged. apply Forall_map. cbn [c_content].
  apply Forall_forall. intros [request reply] Hin. cbn.
  apply list_elem_of_In, List.in_combine_l, repeat_spec in Hin. exact Hin.
Qed.

End ChainFacts.

(** ** The loop and the script as a whole *)

Section ScriptFacts.

Context (chat : list call -> pystr -> pystr -> pystr).
Context (ORCHESTRATOR_MODEL SUBAGENT_MODEL REFINER_MODEL : pystr).

Local Abbreviation haiku := (haiku_sub_agent chat SUBAGENT_MODEL).
Local Abbreviation refine := (opus_refine chat REFINER_MODEL).
Local Abbreviation ask := (ask_orchestrator chat ORCHESTRATOR_MODEL).
Local Abbreviation body := (loop_body chat ORCHESTRATOR_MODEL SUBAGENT_MODEL).
Local Abbreviation loop := (orchestration_loop chat ORCHESTRATOR_MODEL SUBAGENT_MODEL).

(** The two histories of the loop grow together. *)
Lemma loop_tasks_mirror objective file_content fuel : forall v w w' final_output v',
  haiku_tasks v = List.map task_of (task_exchanges v) ->
  loop fuel objective file_content v w = (w', Ret (final_output, v')) ->
  haiku_tasks v' = List.map task_of (task_exchanges v').
Proof.
  induction fuel as [|fuel IH]; intros v w w' final_output v' I Hrun.
  - discriminate.
  - rewrite loop_step, loop_body_eq in Hrun.
    destruct (ask _ _ _ _) as [w1 [[opus_result fcfh]|e|]]; try discriminate.
    destruct (contains MARKER opus_result).
    + injection Hrun as _ _ <-. exact I.
    + cbn zeta in Hrun.
      destruct (haiku _ _ _ _ _) as [w2 [r|e|]]; try discriminate.
      eapply IH; [|exact Hrun].
      cbn [haiku_tasks task_exchanges]. rewrite List.map_app, I. reflexivity.
Qed.

Lemma dispatched_without_seed file_content replies :
  opt_truthy file_content = false -> dispatched file_content replies = replies.
Proof.
  intros H. destruct replies as [|r rs]; [reflexivity|].
  unfold dispatched, sub_task_prompt_of.
  destruct file_content as [fc|]; [|reflexivity].
  cbn in H. rewrite H. reflexivity.
Qed.

(** X4: a run without seed content (no file, or an empty one).  When the loop
    returns, the instructions of the recorded exchanges are the orchestrator's
    replies but the last, as they are and in order; the sub-agent's history
    holds the same (instruction, result) pairs as the exchanges; the
    orchestrator was called once more than there are exchanges; and the final
    text comes from the last reply, the only one with the marker. *)
Theorem loop_without_seed
    (fuel : nat) (objective : pystr) (file_content : option pystr)
    (fs : gmap (list pystr) node) (w : world) (final_output : pystr) (v : loop_vars) :
  opt_truthy file_content = false ->
  loop fuel objective file_content initial_vars (initial_world fs)
    = (w, Ret (final_output, v)) ->
  let replies := List.map c_response (orchestrator_calls w) in
  List.map fst (task_exchanges v) = removelast replies
  /\ haiku_tasks v = List.map task_of (task_exchanges v)
  /\ length replies = S (length (task_exchanges v))
  /\ Forall (fun r => contains MARKER r = false) (removelast replies)
  /\ exists last_reply,
       replies = removelast replies ++ [last_reply]
       /\ contains MARKER last_reply = true
       /\ final_output = strip (replace MARKER [] last_reply).
Proof.
  intros Hfc Hrun. cbn zeta.
  pose proof (loop_run chat ORCHESTRATOR_MODEL SUBAGENT_MODEL objective file_content fuel _ _
                (initial_invariant objective file_content fs)) as H.
  rewrite Hrun in H. destruct H as (H1 & H2 & earlier & c & Ho & Hc & Hearlier & Hfinal).
  rewrite dispatched_without_seed in H1 by exact Hfc.
  split; [exact H1|].
  split; [exact (loop_tasks_mirror objective file_content fuel initial_vars _ _ _ _
                   eq_refl Hrun)|].
  split.
  { rewrite List.length_map, <- (List.length_map c_content), H2.
    unfold orchestrator_prompts.
    rewrite !List.length_map, List.length_seq. reflexivity. }
  rewrite Ho, List.map_app. cbn [List.map]. rewrite removelast_last.
  split.
  { apply Forall_map. exact Hearlier. }
  exists (c_response c). split; [reflexivity|]. split; [exact Hc|exact Hfinal].
Qed.

Lemma empty_seed_body fuel objective v w :
  body fuel objective (Some []) v w = body fuel objective None v w.
Proof.
  rewrite !loop_body_eq. unfold ask_orchestrator.
  destruct (is_empty (task_exchanges v)); [|reflexivity].
  destruct (orchestrator_spec chat ORCHESTRATOR_MODEL objective None
              (List.map snd (task_exchanges v)) w) as (w1 & E & _).
  cbn zeta in E. rewrite E.
  assert (E' : opus_orchestrator chat ORCHESTRATOR_MODEL objective (Some [])
                 (List.map snd (task_exchanges v)) w
               = (w1, Ret (chat (w_calls w) ORCHESTRATOR_MODEL
                             (generate_ollama_prompt objective None
                                (previous_results_text_of (List.map snd (task_exchanges v)))),
                           Some []))).
  { revert E. unfold opus_orchestrator, display_file_content_panel.
    monad_unfold. cbn. intros [= <-]. reflexivity. }
  rewrite E'. reflexivity.
Qed.

(** X5: an empty seed file is no seed.  With the content of an empty file the
    loop makes the same calls, prints the same panels and returns the same
    result as with no file at all. *)
Theorem empty_seed_is_no_seed (fuel : nat) (objective : pystr) (v : loop_vars) (w : world) :
  loop fuel objective (Some []) v w = loop fuel objective None v w.
Proof.
  revert v w. induction fuel as [|fuel IH]; intros v w; [reflexivity|].
  rewrite !loop_step, empty_seed_body.
  destruct (body fuel objective None v w) as [w' [[final|v']|e|]]; try reflexivity.
  apply IH.
Qed.

(** The agents leave the files alone and raise nothing. *)
Lemma loop_quiet objective file_content fuel : forall v w,
  w_fs (fst (loop fuel objective file_content v w)) = w_fs w
  /\ forall e, snd (loop fuel objective file_content v w) <> Raise e.
Proof.
  induction fuel as [|fuel IH]; intros v w.
  - split; [reflexivity|discriminate].
  - rewrite loop_step, loop_body_eq.
    destruct (ask_orchestrator_spec chat ORCHESTRATOR_MODEL objective file_content v w)
      as (w1 & -> & _ & F1).
    destruct (contains MARKER _).
    + split; [exact F1|discriminate].
    + cbn zeta.
      match goal with |- context [haiku fuel ?p ?t ?c w1] =>
        destruct (haiku_calls chat SUBAGENT_MODEL fuel p t c w1) as (new & _ & _ & F2);
        pose proof (haiku_never_raises chat SUBAGENT_MODEL fuel p t c w1) as NR;
        destruct (haiku fuel p t c w1) as [w2 [r|e|]]
      end; cbn [fst snd] in *.
      * match goal with |- context [loop fuel objective file_content ?vv w2] =>
          destruct (IH vv w2) as (F3 & N3)
        end.
        split; [rewrite F3; congruence|exact N3].
      * exfalso. apply (NR e). reflexivity.
      * split; [congruence|discriminate].
Qed.

Lemma refine_quiet fuel : forall objective results filename projectname continuation w,
  w_fs (fst (refine fuel objective results filename projectname continuation w)) = w_fs w
  /\ forall e, snd (refine fuel objective results filename projectname continuation w)
               <> Raise e.
Proof.
  induction fuel as [|fuel IH]; intros objective results filename projectname continuation w.
  - split; [reflexivity|discriminate].
  - rewrite refine_step. cbn zeta.
    destruct (may_be_truncated _); [|split; [reflexivity|discriminate]].
    match goal with |- context [refine fuel ?o ?r ?f ?p ?c ?ww] =>
      destruct (IH o r f p c ww) as (F & N);
      destruct (refine fuel o r f p c ww) as [w2 [t|e|]]
    end; cbn [fst snd w_fs] in *.
    + split; [exact F|discriminate].
    + exfalso. apply (N e). reflexivity.
    + split; [exact F|discriminate].
Qed.

End ScriptFacts.

Section WholeScriptFacts.

Context (chat : list call -> pystr -> pystr -> pystr).
Context (ORCHESTRATOR_MODEL SUBAGENT_MODEL REFINER_MODEL : pystr).
Context (cwd : list pystr).
Context (json_loads : pystr -> option json).
Context (findall_code_blocks : pystr -> list (pystr * pystr)).

Local Abbreviation script :=
  (main chat ORCHESTRATOR_MODEL SUBAGENT_MODEL REFINER_MODEL cwd json_loads
     findall_code_blocks).
Local Abbreviation finish := (after_refine cwd json_loads findall_code_blocks).

Lemma extract_folder_structure_returns refined_output w :
  exists w' tree,
    extract_folder_structure json_loads refined_output w = (w', Ret tree)
    /\ w_fs w' = w_fs w.
Proof.
  unfold extract_folder_structure.
  destruct (search_folder_structure refined_output) as [group|].
  - destruct (json_loads (strip group)) as [tree|].
    + eexists _, _. split; reflexivity.
    + eexists _, _. monad_unfold. split; reflexivity.
  - eexists _, _. split; reflexivity.
Qed.

Lemma walk_tree_outcome tree current_path code_blocks w :
  snd (create_folders_and_files cwd current_path tree code_blocks w) = Ret tt
  \/ snd (create_folders_and_files cwd current_path tree code_blocks w)
     = Raise AttributeError.
Proof.
  destruct (is_dict tree) eqn:D.
  - left. apply walk_tree_returns. exact D.
  - right. rewrite walk_tree_not_dict by exact D. reflexivity.
Qed.

Lemma write_exchange_log_outcome objective sanitized_objective timestamp exchanges
    refined_output w :
  snd (write_exchange_log cwd objective sanitized_objective timestamp exchanges
         refined_output w) = Ret tt
  \/ snd (write_exchange_log cwd objective sanitized_objective timestamp exchanges
            refined_output w) = Raise OSError.
Proof.
  unfold write_exchange_log, bind, console_print, open_write, raise.
  cbn [w_fs w_console w_calls].
  destruct (FS.write_file _ _ _ _); [left|right]; reflexivity.
Qed.

Lemma create_folder_structure_outcome project_name tree code_blocks w :
  snd (create_folder_structure cwd project_name tree code_blocks w) = Ret tt
  \/ snd (create_folder_structure cwd project_name tree code_blocks w)
     = Raise AttributeError.
Proof. rewrite create_folder_structure_eq. apply walk_tree_outcome. Qed.

Lemma after_refine_outcome objective sanitized_objective timestamp exchanges
    refined_output w :
  snd (finish objective sanitized_objective timestamp exchanges refined_output w) = Ret tt
  \/ snd (finish objective sanitized_objective timestamp exchanges refined_output w)
     = Raise AttributeError
  \/ snd (finish objective sanitized_objective timestamp exchanges refined_output w)
     = Raise OSError.
Proof.
  unfold after_refine, bind.
  destruct (extract_folder_structure_returns refined_output w) as (w1 & tree & -> & _).
  destruct (create_folder_structure_outcome
              (project_name_of sanitized_objective refined_output) tree
              (findall_code_blocks refined_output) w1) as [R|R];
    destruct (create_folder_structure _ _ _ _ _) as [w2 r]; cbn [snd] in R; subst r;
    cbv beta iota.
  - destruct (write_exchange_log_outcome objective sanitized_objective timestamp
                exchanges refined_output w2) as [L|L]; rewrite L; auto.
  - right. left. reflexivity.
Qed.

(** The script, by the stages it reaches. *)
Lemma main_eq fuel objective file_content sanitized_objective timestamp w :
  script fuel objective file_content sanitized_objective timestamp w =
  match orchestration_loop chat ORCHESTRATOR_MODEL SUBAGENT_MODEL fuel objective
          file_content initial_vars w with
  | (w1, Ret r) =>
      match opus_refine chat REFINER_MODEL fuel objective
              (List.map snd (task_exchanges (snd r))) timestamp sanitized_objective
              false w1 with
      | (w2, Ret refined_output) =>
          finish objective sanitized_objective timestamp (task_exchanges (snd r))
            refined_output w2
      | (w2, Raise e) => (w2, Raise e)
      | (w2, OutOfFuel) => (w2, OutOfFuel)
      end
  | (w1, Raise e) => (w1, Raise e)
  | (w1, OutOfFuel) => (w1, OutOfFuel)
  end.
Proof.
  unfold main, bind.
  destruct (orchestration_loop _ _ _ _ _ _ _ _) as [w1 [r|e|]]; reflexivity.
Qed.

(** X6: nothing is written before the refiner has answered.  When the script
    does not get through the loop and the refiner (it runs out of fuel), the
    file system is as it was at the start. *)
Theorem nothing_written_before_refinement
    (fuel : nat) (objective : pystr) (file_content : option pystr)
    (sanitized_objective timestamp : pystr) (w : world) :
  snd (script fuel objective file_content sanitized_objective timestamp w) = OutOfFuel ->
  w_fs (fst (script fuel objective file_content sanitized_objective timestamp w)) = w_fs w.
Proof.
  rewrite main_eq.
  destruct (loop_quiet chat ORCHESTRATOR_MODEL SUBAGENT_MODEL objective file_content fuel
              initial_vars w) as (F1 & _).
  destruct (orchestration_loop _ _ _ _ _ _ _ _) as [w1 [r|e|]]; cbn [fst snd] in *;
    try (intros _; exact F1).
  destruct (refine_quiet chat REFINER_MODEL fuel objective
              (List.map snd (task_exchanges (snd r))) timestamp sanitized_objective
              false w1) as (F2 & _).
  destruct (opus_refine _ _ _ _ _ _ _ _ _) as [w2 [t|e|]]; cbn [fst snd] in *;
    try (intros _; congruence).
  destruct (after_refine_outcome objective sanitized_objective timestamp
              (task_exchanges (snd r)) t w2) as [R|[R|R]]; rewrite R; discriminate.
Qed.

End WholeScriptFacts.

(** ** The parser of the refined output *)

Section ParserFacts.

Lemma startswith_other c (sub' s : pystr) x :
  x <> c -> startswith (c :: sub') (x :: s) = false.
Proof.
  intros H. cbn [startswith].
  destruct (c =? x)%N eqn:E; [|reflexivity].
  apply N.eqb_eq in E. congruence.
Qed.

(** The leftmost occurrence of a text that starts with [c], after a prefix
    without [c]. *)
Lemma find_after c (sub' a rest : pystr) :
  Forall (fun x => x <> c) a ->
  find (c :: sub') (a ++ (c :: sub') ++ rest) = Some (length a).
Proof.
  induction 1 as [|x a Hx Ha IH].
  - pose proof (startswith_app (c :: sub') rest) as E. cbn [app] in E.
    cbn [app length find]. rewrite E. reflexivity.
  - cbn [app] in IH. cbn [app length find]. rewrite (startswith_other c sub' _ x Hx).
    rewrite IH. reflexivity.
Qed.

Lemma find_none (sub s : pystr) : contains sub s = false -> find sub s = None.
Proof.
  induction s as [|x s IH]; cbn [contains find]; intros H;
    apply orb_false_iff in H as [H1 H2]; rewrite H1; [reflexivity|].
  rewrite (IH H2). reflexivity.
Qed.

Lemma drop_prefix (a b : pystr) n : n = length a -> drop n (a ++ b) = b.
Proof. intros ->. apply drop_app_length. Qed.

Lemma up_to_newline_line (name rest : pystr) :
  Forall (fun x => x <> 10%N) name ->
  rest = [] \/ startswith nl rest = true ->
  up_to_newline (name ++ rest) = name.
Proof.
  intros Hn Hr. induction Hn as [|x name Hx Hn IH]; cbn [app up_to_newline].
  - destruct Hr as [->|Hr]; [reflexivity|].
    apply startswith_inv in Hr as [t ->]. cbn. reflexivity.
  - destruct (x =? 10)%N eqn:E; [apply N.eqb_eq in E; contradiction|].
    rewrite IH. reflexivity.
Qed.

(** X8: the tree between the tags.  For a text with an opening tag, a body and
    a closing tag, where neither what comes before the opening tag nor the
    body holds the character [<], the group found is the body, whatever
    follows the closing tag; when the stripped body decodes, the decoded value
    is the folder structure and nothing is reported. *)
Theorem folder_structure_round_trip (before body after : pystr) :
  Forall (fun x => x <> 60%N) before ->
  Forall (fun x => x <> 60%N) body ->
  search_folder_structure (before ++ OPEN_TAG ++ body ++ CLOSE_TAG ++ after) = Some body
  /\ forall json_loads tree w,
       json_loads (strip body) = Some tree ->
       extract_folder_structure json_loads
         (before ++ OPEN_TAG ++ body ++ CLOSE_TAG ++ after) w
       = (w, Ret tree).
Proof.
  intros Hb Hbody.
  assert (S : search_folder_structure (before ++ OPEN_TAG ++ body ++ CLOSE_TAG ++ after)
              = Some body).
  { unfold search_folder_structure.
    change OPEN_TAG with (60%N :: str "folder_structure>") at 1 2.
    rewrite (find_after 60%N _ before _ Hb).
    change (60%N :: str "folder_structure>") with OPEN_TAG.
    rewrite app_assoc, drop_prefix by (rewrite length_app; reflexivity).
    change CLOSE_TAG with (60%N :: str "/folder_structure>") at 1 2.
    rewrite (find_after 60%N _ body _ Hbody).
    rewrite take_app_length. reflexivity. }
  split; [exact S|].
  intros json_loads tree w D. unfold extract_folder_structure. rewrite S, D. reflexivity.
Qed.

(** X9: the project name.  For a text with the header [Project Name: ]
    followed by a name and the end of the line (or of the text), where what
    comes before the header holds no [P] and the name no newline, the project
    name is the name with the whitespace around it stripped; the sanitized
    objective is not used. *)
Theorem project_name_round_trip (before name rest sanitized_objective : pystr) :
  Forall (fun x => x <> 80%N) before ->
  Forall (fun x => x <> 10%N) name ->
  rest = [] \/ startswith nl rest = true ->
  project_name_of sanitized_objective (before ++ str "Project Name: " ++ name ++ rest)
  = strip name.
Proof.
  intros Hb Hn Hr. unfold project_name_of, search_project_name.
  change (str "Project Name: ") with (80%N :: str "roject Name: ").
  rewrite (find_after 80%N _ before _ Hb).
  change (80%N :: str "roject Name: ") with (str "Project Name: ").
  rewrite app_assoc, drop_prefix by (rewrite length_app; reflexivity).
  rewrite (up_to_newline_line name rest Hn Hr). reflexivity.
Qed.

(** X10: missing markers.  Without the header the project name is the
    sanitized objective; without an opening tag, or with an opening tag that
    no closing tag follows, the folder structure is the empty dict, and
    nothing is reported in either case. *)
Theorem missing_markers_fall_back (refined_output : pystr) :
  (contains (str "Project Name: ") refined_output = false ->
     forall sanitized_objective,
       project_name_of sanitized_objective refined_output = sanitized_objective)
  /\ (contains OPEN_TAG refined_output = false ->
       forall json_loads w,
         extract_folder_structure json_loads refined_output w = (w, Ret (JObject [])))
  /\ (forall before rest,
        refined_output = before ++ OPEN_TAG ++ rest ->
        Forall (fun x => x <> 60%N) before ->
        contains CLOSE_TAG rest = false ->
        forall json_loads w,
          extract_folder_structure json_loads refined_output w = (w, Ret (JObject []))).
Proof.
  split; [|split].
  - intros H sanitized_objective. unfold project_name_of, search_project_name.
    rewrite (find_none _ _ H). reflexivity.
  - intros H json_loads w. unfold extract_folder_structure, search_folder_structure.
    rewrite (find_none _ _ H). reflexivity.
  - intros before rest -> Hb Hc json_loads w.
    unfold extract_folder_structure, search_folder_structure.
    change OPEN_TAG with (60%N :: str "folder_structure>") at 1 2.
    rewrite (find_after 60%N _ before _ Hb).
    change (60%N :: str "folder_structure>") with OPEN_TAG.
    rewrite app_assoc, drop_prefix by (rewrite length_app; reflexivity).
    rewrite (find_none _ _ Hc). reflexivity.
Qed.

End ParserFacts.

(** ** What the materializer keeps *)

Section KeepFacts.

Context (cwd : list pystr) (code_blocks : list (pystr * pystr)).

Local Abbreviation keeps := (keeps code_blocks).
Local Abbreviation walk_tree := (create_folders_and_files cwd).

Lemma keeps_refl fs : keeps fs fs.
Proof. intros q. split; [auto|]. intros c H. exists c. auto. Qed.

Lemma keeps_trans fs1 fs2 fs3 : keeps fs1 fs2 -> keeps fs2 fs3 -> keeps fs1 fs3.
Proof.
  intros H12 H23 q. destruct (H12 q) as [D12 F12], (H23 q) as [D23 F23].
  split; [auto|]. intros c Hc.
  destruct (F12 c Hc) as (c' & Hc' & E'). destruct (F23 c' Hc') as (c'' & Hc'' & E'').
  exists c''. split; [exact Hc''|]. destruct E'' as [->|I]; auto.
Qed.

Lemma keeps_grows fs fs' : keeps fs fs' -> grows [] fs fs'.
Proof.
  intros K q. destruct (K q) as [D F]. split; [exact D|].
  intros c Hc. destruct (F c Hc) as (c' & Hc' & _). exists c'. split; [exact Hc'|].
  discriminate.
Qed.

Lemma keeps_insert_dir (fs : gmap (list pystr) node) d :
  fs !! d = None -> keeps fs (<[d := Dir]> fs).
Proof.
  intros Hd q. destruct (decide (d = q)) as [->|Hne].
  - rewrite Hd. split; [discriminate|]. intros c Hc. discriminate.
  - rewrite lookup_insert_ne by exact Hne. split; [auto|].
    intros c Hc. exists c. auto.
Qed.

Lemma keeps_insert_file (fs : gmap (list pystr) node) d (code : pystr) :
  fs !! d <> Some Dir -> In code (List.map snd code_blocks) ->
  keeps fs (<[d := File code]> fs).
Proof.
  intros Hd Hin q. destruct (decide (d = q)) as [->|Hne].
  - rewrite lookup_insert_eq. split; [intros; contradiction|].
    intros c Hc. exists code. auto.
  - rewrite lookup_insert_ne by exact Hne. split; [auto|].
    intros c Hc. exists c. auto.
Qed.

Lemma makedirs_from_keeps cs : forall fs cur,
  keeps fs (fst (FS.makedirs_from fs cur cs)).
Proof.
  induction cs as [|c cs IH]; intros fs cur; simpl.
  - apply keeps_refl.
  - destruct (FS.classify c); [apply IH|apply IH|].
    destruct (fs !! (cur ++ [c])) as [[|content]|] eqn:E.
    + apply IH.
    + apply keeps_refl.
    + eapply keeps_trans; [apply keeps_insert_dir; exact E|apply IH].
Qed.

Lemma makedirs_keeps p fs : keeps fs (fst (FS.makedirs cwd p fs)).
Proof. destruct p as [|c p]; [apply keeps_refl|apply makedirs_from_keeps]. Qed.

Lemma next_code_in key (code : pystr) :
  next_code key code_blocks = Some code -> In code (List.map snd code_blocks).
Proof.
  induction code_blocks as [|[file c] blocks IH]; cbn [next_code List.map snd];
    [discriminate|].
  destruct (PyStr.eqb file key).
  - intros [= ->]. left. reflexivity.
  - intros H. right. apply IH. exact H.
Qed.

Lemma create_file_keeps path key w :
  keeps (w_fs w) (w_fs (fst (create_file cwd path key code_blocks w))).
Proof.
  rewrite create_file_eq.
  destruct (next_code key code_blocks) as [code|] eqn:N; [|apply keeps_refl].
  destruct (truthy code); [|apply keeps_refl].
  destruct (FS.write_file cwd path code (w_fs w)) as [fs'|] eqn:W; [|apply keeps_refl].
  destruct (write_file_inv cwd _ _ _ _ W) as (d & _ & _ & _ & ND & ->).
  cbn [fst w_fs]. apply keeps_insert_file; [exact ND|]. exact (next_code_in _ _ N).
Qed.

Lemma walk_tree_keeps : forall tree current_path w,
  keeps (w_fs w) (w_fs (fst (walk_tree current_path tree code_blocks w))).
Proof.
  induction tree as [items IH|v Hv] using json_tree_ind.
  2: { intros current_path w. rewrite walk_tree_not_dict by exact Hv. apply keeps_refl. }
  induction IH as [|[key value] rest Hvalue _ IHrest]; intros current_path w.
  - apply keeps_refl.
  - rewrite walk_tree_cons. cbn zeta. unfold bind at 1.
    cbn [snd] in Hvalue.
    match goal with |- context [match ?e w with _ => _ end] =>
      assert (E : keeps (w_fs w) (w_fs (fst (e w))))
    end.
    { destruct value; try apply create_file_keeps.
      rewrite create_folder_eq. cbn zeta.
      pose proof (makedirs_keeps (FS.join current_path key) (w_fs w)) as K0.
      destruct (FS.makedirs cwd (FS.join current_path key) (w_fs w)) as [fsa [|]];
        cbn [fst snd] in *; [|exact K0].
      eapply keeps_trans; [exact K0|].
      exact (Hvalue (FS.join current_path key)
               (World fsa (w_console w ++ [FolderCreated (FS.join current_path key)])
                  (w_calls w))). }
    match goal with |- context [match ?e w with _ => _ end] =>
      destruct (e w) as [wa [[]|e'|]]
    end; cbn [fst] in *; try exact E.
    eapply keeps_trans; [exact E|apply IHrest].
Qed.

(** X11: the materializer loses nothing.  For every project name, tree and
    code bodies, and whatever the file system holds, every directory that was
    there is still a directory afterwards, and every file is still a file,
    with the content it had or with one of the code bodies. *)
Theorem materializer_keeps_what_exists
    (project_name : pystr) (tree : json) (fs : gmap (list pystr) node) :
  keeps fs (materialize cwd project_name tree code_blocks fs).
Proof.
  unfold materialize. rewrite create_folder_structure_eq. cbn zeta.
  cbn [initial_world w_fs w_console w_calls].
  set (r := FS.makedirs cwd project_name fs).
  set (w1 := World (fst r) _ _).
  eapply keeps_trans; [exact (makedirs_keeps project_name fs)|].
  exact (walk_tree_keeps tree project_name w1).
Qed.

End KeepFacts.

(** ** What the materializer creates *)

Section PlaceFacts.

Context (cwd : list pystr) (code_blocks : list (pystr * pystr)).

Local Abbreviation walk_tree := (create_folders_and_files cwd).
Local Abbreviation reaches := (resolves cwd).

Lemma walk_app cs1 : forall fs cur cs2,
  FS.walk fs cur (cs1 ++ cs2) =
  match FS.walk fs cur cs1 with
  | FS.Reached d => FS.walk fs d cs2
  | r => r
  end.
Proof.
  induction cs1 as [|c cs1 IH]; intros fs cur cs2; [reflexivity|].
  cbn [app FS.walk]. destruct (FS.classify c); try apply IH.
  destruct (fs !! (cur ++ [c])) as [[|content]|]; try reflexivity. apply IH.
Qed.

Lemma makedirs_from_reached cs1 : forall fs cur d cs2,
  FS.walk fs cur cs1 = FS.Reached d ->
  FS.makedirs_from fs cur (cs1 ++ cs2) = FS.makedirs_from fs d cs2.
Proof.
  induction cs1 as [|c cs1 IH]; intros fs cur d cs2; cbn [app FS.walk FS.makedirs_from].
  - intros [= ->]. reflexivity.
  - destruct (FS.classify c); try apply IH.
    destruct (fs !! (cur ++ [c])) as [[|content]|]; try discriminate. apply IH.
Qed.

Lemma plain_name_inv (k : pystr) :
  plain_name k = true -> no_separator k = true /\ FS.classify k = FS.Name.
Proof.
  unfold plain_name. intros H. apply andb_true_iff in H as [H1 H2].
  split; [exact H1|]. destruct (FS.classify k); try discriminate. reflexivity.
Qed.

Lemma join_nil_inv (a b : pystr) : FS.join a b = [] -> b = [].
Proof.
  unfold FS.join. destruct (startswith [FS.sep] b); [auto|].
  destruct (negb (truthy a) || endswith [FS.sep] a).
  - intros H. apply app_eq_nil in H as [_ H]. exact H.
  - intros H. apply app_eq_nil in H as [_ H]. discriminate.
Qed.

(** The path of an entry with a plain name, under a current path that
    resolves. *)
Lemma entry_path (current_path k : pystr) fs (d : list pystr) :
  plain_name k = true -> reaches current_path fs d ->
  exists cs,
    FS.join current_path k <> []
    /\ split_on FS.sep (FS.join current_path k) = cs ++ [k]
    /\ FS.start_of cwd (FS.join current_path k) = FS.start_of cwd current_path
    /\ FS.walk fs (FS.start_of cwd current_path) cs = FS.Reached d.
Proof.
  intros Hk R. destruct (plain_name_inv k Hk) as [Hs Hc].
  destruct (join_plain cwd current_path k Hs) as [E|(cs & NE & Sp & St & Mv)].
  - apply join_nil_inv in E. subst k. discriminate.
  - exists cs. split; [exact NE|]. split; [exact Sp|]. split; [exact St|].
    rewrite walk_moving, Mv, <- walk_moving. exact R.
Qed.

Lemma makedirs_fresh (current_path k : pystr) (fs : gmap (list pystr) node) (d : list pystr) :
  plain_name k = true -> reaches current_path fs d ->
  fs !! (d ++ [k]) = None ->
  FS.makedirs cwd (FS.join current_path k) fs = (<[d ++ [k] := Dir]> fs, true).
Proof.
  intros Hk R Hnone. destruct (entry_path current_path k fs d Hk R)
    as (cs & NE & Sp & St & W).
  destruct (plain_name_inv k Hk) as [_ Hc].
  unfold FS.makedirs. destruct (FS.join current_path k) as [|c p] eqn:J; [contradiction|].
  rewrite Sp, St, (makedirs_from_reached _ _ _ _ _ W).
  cbn [FS.makedirs_from]. rewrite Hc, Hnone. reflexivity.
Qed.

Lemma write_fresh (current_path k code : pystr) (fs : gmap (list pystr) node) (d : list pystr) :
  plain_name k = true -> reaches current_path fs d ->
  fs !! (d ++ [k]) <> Some Dir ->
  FS.write_file cwd (FS.join current_path k) code fs
  = Some (<[d ++ [k] := File code]> fs).
Proof.
  intros Hk R Hnd. destruct (entry_path current_path k fs d Hk R)
    as (cs & NE & Sp & St & W).
  destruct (plain_name_inv k Hk) as [_ Hc].
  unfold FS.write_file. destruct (FS.join current_path k) as [|c p] eqn:J; [contradiction|].
  rewrite Sp, St, removelast_last, last_last, W, Hc.
  destruct (fs !! (d ++ [k])) as [[|content]|]; [contradiction|reflexivity|reflexivity].
Qed.

Lemma resolves_child (current_path k : pystr) (fs : gmap (list pystr) node) (d : list pystr) :
  plain_name k = true -> reaches current_path fs d ->
  fs !! (d ++ [k]) = Some Dir ->
  reaches (FS.join current_path k) fs (d ++ [k]).
Proof.
  intros Hk R Hd. destruct (entry_path current_path k fs d Hk R)
    as (cs & NE & Sp & St & W).
  destruct (plain_name_inv k Hk) as [_ Hc].
  unfold resolves. rewrite Sp, St, walk_app, W.
  cbn [FS.walk]. rewrite Hc, Hd. reflexivity.
Qed.

Lemma resolves_keeps (current_path : pystr) fs fs' (d : list pystr) :
  reaches current_path fs d -> keeps code_blocks fs fs' -> reaches current_path fs' d.
Proof.
  intros R K. unfold resolves in *.
  exact (walk_reached_stable [] _ _ _ _ _ (keeps_grows code_blocks _ _ K) R).
Qed.

Lemma well_named_cons (k : pystr) v rest :
  well_named (JObject ((k, v) :: rest))
  = plain_name k && negb (existsb (PyStr.eqb k) (List.map fst rest))
    && well_named v && well_named (JObject rest).
Proof. reflexivity. Qed.

Lemma not_among (k : pystr) (keys : list pystr) :
  negb (existsb (PyStr.eqb k) keys) = true -> ~ In k keys.
Proof.
  intros H Hin. apply negb_true_iff in H.
  assert (E : existsb (PyStr.eqb k) keys = true).
  { apply existsb_exists. exists k. split; [exact Hin|apply eqb_refl]. }
  congruence.
Qed.

Lemma lookup_key_none (k : pystr) items :
  ~ In k (List.map fst items) -> lookup_key k items = None.
Proof.
  induction items as [|[k' v] items IH]; cbn [lookup_key List.map fst In]; [reflexivity|].
  intros H. destruct (PyStr.eqb k' k) eqn:E.
  - apply eqb_eq in E. exfalso. apply H. left. exact E.
  - apply IH. intros Hin. apply H. right. exact Hin.
Qed.

Lemma node_at_head (k : pystr) v rest rel :
  node_at code_blocks (JObject ((k, v) :: rest)) (k :: rel)
  = match v with
    | JObject sub => node_at code_blocks (JObject sub) rel
    | _ => match rel with [] => file_for k code_blocks | _ :: _ => None end
    end.
Proof. cbn [node_at lookup_key]. rewrite eqb_refl. reflexivity. Qed.

Lemma node_at_tail (k0 : pystr) v0 rest (k : pystr) rel :
  k <> k0 ->
  node_at code_blocks (JObject ((k0, v0) :: rest)) (k :: rel)
  = node_at code_blocks (JObject rest) (k :: rel).
Proof.
  intros H. cbn [node_at lookup_key].
  replace (PyStr.eqb k0 k) with false; [reflexivity|].
  symmetry. apply eqb_neq. congruence.
Qed.

Lemma below_inj (d : list pystr) (k : pystr) rel (k' : pystr) rel' :
  d ++ k :: rel = d ++ k' :: rel' -> k = k' /\ rel = rel'.
Proof. intros H. apply app_inv_head in H. injection H as -> ->. auto. Qed.

Lemma snoc_below (d : list pystr) (k k' : pystr) rel : (d ++ [k]) ++ k' :: rel = d ++ k :: k' :: rel.
Proof. rewrite <- app_assoc. reflexivity. Qed.

(** What a dict has put strictly below its directory, when nothing was
    there. *)
Lemma placed_below (d : list pystr) items fs fs' :
  placed code_blocks d items fs fs' ->
  (forall rel, rel <> [] -> fs !! (d ++ rel) = None) ->
  forall rel, rel <> [] -> fs' !! (d ++ rel) = node_at code_blocks (JObject items) rel.
Proof.
  intros [P1 P2] Fr rel Hrel. destruct rel as [|k rel]; [contradiction|].
  destruct (decide (k ∈ List.map fst items)) as [Hin|Hout];
    rewrite list_elem_of_In in *.
  - apply P1. exact Hin.
  - rewrite P2.
    + rewrite Fr by discriminate. cbn [node_at].
      rewrite (lookup_key_none k items Hout). reflexivity.
    + intros k' rel' Hin E. apply below_inj in E as [-> _]. contradiction.
Qed.

(** The walk of a well-named dict over a directory where nothing stands in
    its way. *)
Lemma walk_tree_placed : forall tree, well_named tree = true ->
  forall items, tree = JObject items ->
  forall (current_path : pystr) (d : list pystr) w,
    reaches current_path (w_fs w) d ->
    fresh_at d (List.map fst items) (w_fs w) ->
    placed code_blocks d items (w_fs w)
      (w_fs (fst (walk_tree current_path tree code_blocks w))).
Proof.
  induction tree as [items0 IH|v Hv] using json_tree_ind.
  2: { intros _ items ->. discriminate Hv. }
  intros Hw items [= <-]. revert Hw.
  induction IH as [|[k0 v0] rest Hv0 _ IHrest]; intros Hw current_path d w R F.
  - split; [intros k rel []|intros q _; reflexivity].
  - rewrite well_named_cons in Hw.
    apply andb_true_iff in Hw as [Hw Hwrest]. apply andb_true_iff in Hw as [Hw Hwv0].
    apply andb_true_iff in Hw as [Hk0 Hnot]. apply not_among in Hnot.
    cbn [snd] in Hv0. specialize (Hv0 Hwv0). specialize (IHrest Hwrest).
    assert (F0 : forall rel, w_fs w !! (d ++ k0 :: rel) = None)
      by (intros rel; apply F; left; reflexivity).
    set (path := FS.join current_path k0).
    set (entry := match v0 with
                  | JObject _ =>
                      ok <- os_makedirs cwd path ;;
                      if ok then
                        console_print (FolderCreated path) ;;
                        walk_tree path v0 code_blocks
                      else console_print (FolderCreationError path)
                  | _ => create_file cwd path k0 code_blocks
                  end).
    assert (Entry : exists wa,
      entry w = (wa, Ret tt)
      /\ keeps code_blocks (w_fs w) (w_fs wa)
      /\ (forall rel, w_fs wa !! (d ++ k0 :: rel)
                      = node_at code_blocks (JObject ((k0, v0) :: rest)) (k0 :: rel))
      /\ (forall q, (forall rel, q <> d ++ k0 :: rel) -> w_fs wa !! q = w_fs w !! q)).
    { unfold entry, path. clear entry path.
      destruct (is_dict v0) eqn:D.
      - (* a directory *)
        destruct v0 as [ | | | | |sub]; try discriminate.
        rewrite create_folder_eq. cbn zeta.
        rewrite (makedirs_fresh current_path k0 (w_fs w) d Hk0 R (F0 [])).
        cbn [fst snd].
        set (fs1 := <[d ++ [k0] := Dir]> (w_fs w)).
        set (w1 := World fs1 _ _).
        assert (K1 : keeps code_blocks (w_fs w) fs1)
          by (apply keeps_insert_dir; exact (F0 [])).
        assert (R1 : reaches (FS.join current_path k0) fs1 (d ++ [k0])).
        { apply resolves_child; [exact Hk0| |apply lookup_insert_eq].
          exact (resolves_keeps _ _ _ _ R K1). }
        assert (Fr1 : forall rel, rel <> [] -> fs1 !! ((d ++ [k0]) ++ rel) = None).
        { intros rel Hrel. unfold fs1. rewrite lookup_insert_ne.
          - destruct rel as [|k rel]; [contradiction|]. rewrite snoc_below. apply F0.
          - intros E. apply (f_equal (@length pystr)) in E.
            rewrite !length_app in E. destruct rel; [contradiction|]. cbn in E. lia. }
        assert (P : placed code_blocks (d ++ [k0]) sub fs1
                      (w_fs (fst (walk_tree (FS.join current_path k0) (JObject sub)
                                    code_blocks w1)))).
        { apply (Hv0 sub eq_refl (FS.join current_path k0) (d ++ [k0]) w1 R1).
          intros k rel _. apply Fr1. discriminate. }
        pose proof (walk_tree_returns cwd code_blocks (JObject sub) eq_refl
                      (FS.join current_path k0) w1) as Ret1.
        pose proof (walk_tree_keeps cwd code_blocks (JObject sub)
                      (FS.join current_path k0) w1) as K2.
        destruct (walk_tree (FS.join current_path k0) (JObject sub) code_blocks w1)
          as [wa ra].
        cbn [fst snd] in *. subst ra. exists wa. split; [reflexivity|].
        split; [exact (keeps_trans _ _ _ _ K1 K2)|]. split.
        + intros rel. rewrite node_at_head. destruct rel as [|k rel].
          * destruct P as [_ P2]. change (d ++ [k0]) with (d ++ [k0]).
            rewrite P2; [apply lookup_insert_eq|].
            intros k rel _ E. apply (f_equal (@length pystr)) in E.
            rewrite !length_app in E. cbn in E. lia.
          * rewrite <- snoc_below. apply (placed_below _ _ _ _ P Fr1). discriminate.
        + intros q Hq. destruct P as [_ P2]. rewrite P2.
          * unfold fs1. apply lookup_insert_ne. intros E. apply (Hq []). auto.
          * intros k rel _ E. rewrite snoc_below in E. exact (Hq _ E).
      - (* a file *)
        assert (Ee : match v0 with
                     | JObject _ =>
                         ok <- os_makedirs cwd (FS.join current_path k0) ;;
                         if ok then
                           console_print (FolderCreated (FS.join current_path k0)) ;;
                           walk_tree (FS.join current_path k0) v0 code_blocks
                         else console_print (FolderCreationError (FS.join current_path k0))
                     | _ => create_file cwd (FS.join current_path k0) k0 code_blocks
                     end = create_file cwd (FS.join current_path k0) k0 code_blocks)
          by (destruct v0; try reflexivity; discriminate).
        assert (Hnode : forall rel,
          node_at code_blocks (JObject ((k0, v0) :: rest)) (k0 :: rel)
          = match rel with [] => file_for k0 code_blocks | _ :: _ => None end)
          by (intros rel; rewrite node_at_head; destruct v0; try reflexivity; discriminate).
        rewrite Ee, create_file_eq. unfold file_for in Hnode.
        destruct (next_code k0 code_blocks) as [code|] eqn:N.
        2: { eexists. split; [reflexivity|]. cbn [w_fs].
             split; [apply keeps_refl|]. split; [|reflexivity].
             intros rel. rewrite Hnode, F0. destruct rel; reflexivity. }
        destruct (truthy code) eqn:T.
        2: { eexists. split; [reflexivity|]. cbn [w_fs].
             split; [apply keeps_refl|]. split; [|reflexivity].
             intros rel. rewrite Hnode, F0. destruct rel; reflexivity. }
        rewrite (write_fresh current_path k0 code (w_fs w) d Hk0 R)
          by (rewrite (F0 []); discriminate).
        eexists. split; [reflexivity|]. cbn [w_fs].
        split; [|split].
        + apply keeps_insert_file; [rewrite (F0 []); discriminate|].
          exact (next_code_in code_blocks _ _ N).
        + intros rel. rewrite Hnode. destruct rel as [|k rel].
          * apply lookup_insert_eq.
          * rewrite lookup_insert_ne; [apply F0|].
            intros E. apply (f_equal (@length pystr)) in E.
            rewrite !length_app in E. cbn in E. lia.
        + intros q Hq. apply lookup_insert_ne. intros E. apply (Hq []). auto. }
    destruct Entry as (wa & Ew & Ka & E1 & E2).
    rewrite walk_tree_cons. cbn zeta. fold path. fold entry.
    unfold bind. rewrite Ew.
    assert (Ra : reaches current_path (w_fs wa) d)
      by (exact (resolves_keeps _ _ _ _ R Ka)).
    assert (Fa : fresh_at d (List.map fst rest) (w_fs wa)).
    { intros k rel Hin. rewrite E2.
      - apply F. right. exact Hin.
      - intros rel' E. apply below_inj in E as [-> _]. contradiction. }
    destruct (IHrest current_path d wa Ra Fa) as [P1 P2].
    split.
    + intros k rel Hin. destruct (decide (k = k0)) as [->|Hne].
      * rewrite P2; [apply E1|].
        intros k rel' Hin' E. apply below_inj in E as [-> _]. contradiction.
      * destruct Hin as [Hin|Hin]; [cbn in Hin; congruence|].
        rewrite (node_at_tail k0 v0 rest k rel Hne). apply P1. exact Hin.
    + intros q Hq. rewrite P2.
      * apply E2. intros rel. apply Hq. left. reflexivity.
      * intros k rel Hin. apply Hq. right. exact Hin.
Qed.

Lemma join_empty (k : pystr) : plain_name k = true -> FS.join [] k = k.
Proof.
  intros Hk. destruct (plain_name_inv k Hk) as [Hs _].
  unfold FS.join. rewrite (plain_not_absolute _ Hs). reflexivity.
Qed.

Lemma resolves_cwd fs : reaches [] fs cwd.
Proof. unfold resolves. cbn [split_on FS.walk]. reflexivity. Qed.

(** X12: a fresh project.  When the project name is a plain name, the keys of
    every dict of the tree are plain names used once, and nothing exists at or
    below the project folder, the materializer turns the tree into the file
    system: the project folder and every dict become directories, every other
    entry whose code is found and not empty becomes a file with that code,
    nothing else appears in the project folder, and nothing outside it
    changes. *)
Theorem fresh_project_materialized
    (project_name : pystr) (items : list (pystr * json))
    (fs : gmap (list pystr) node) :
  plain_name project_name = true ->
  well_named (JObject items) = true ->
  (forall rel, fs !! (cwd ++ project_name :: rel) = None) ->
  let fs' := materialize cwd project_name (JObject items) code_blocks fs in
  (forall rel, fs' !! (cwd ++ project_name :: rel)
               = node_at code_blocks (JObject items) rel)
  /\ (forall q, (forall rel, q <> cwd ++ project_name :: rel) -> fs' !! q = fs !! q).
Proof.
  intros Hp Hw Fr. cbn zeta. unfold materialize.
  rewrite create_folder_structure_eq. cbn zeta.
  cbn [initial_world w_fs w_console w_calls].
  pose proof (makedirs_fresh [] project_name fs cwd Hp (resolves_cwd fs) (Fr [])) as M.
  rewrite (join_empty _ Hp) in M. rewrite M. cbn [fst snd].
  set (fs1 := <[cwd ++ [project_name] := Dir]> fs).
  set (w1 := World fs1 _ _).
  assert (R1 : reaches project_name fs1 (cwd ++ [project_name])).
  { rewrite <- (join_empty _ Hp) at 1.
    apply resolves_child; [exact Hp|apply resolves_cwd|apply lookup_insert_eq]. }
  assert (Fr1 : forall rel, rel <> [] -> fs1 !! ((cwd ++ [project_name]) ++ rel) = None).
  { intros rel Hrel. unfold fs1. rewrite lookup_insert_ne.
    - destruct rel as [|k rel]; [contradiction|]. rewrite snoc_below. apply Fr.
    - intros E. apply (f_equal (@length pystr)) in E.
      rewrite !length_app in E. destruct rel; [contradiction|]. cbn in E. lia. }
  assert (P : placed code_blocks (cwd ++ [project_name]) items fs1
                (w_fs (fst (walk_tree project_name (JObject items) code_blocks w1)))).
  { apply (walk_tree_placed (JObject items) Hw items eq_refl project_name
             (cwd ++ [project_name]) w1 R1).
    intros k rel _. apply Fr1. discriminate. }
  split.
  - intros rel. destruct rel as [|k rel].
    + destruct P as [_ P2]. rewrite P2; [apply lookup_insert_eq|].
      intros k rel _ E. apply (f_equal (@length pystr)) in E.
      rewrite !length_app in E. cbn in E. lia.
    + rewrite <- snoc_below. apply (placed_below _ _ _ _ P Fr1). discriminate.
  - intros q Hq. destruct P as [_ P2]. rewrite P2.
    + unfold fs1. apply lookup_insert_ne. intros E. apply (Hq []). auto.
    + intros k rel _ E. rewrite snoc_below in E. exact (Hq _ E).
Qed.

(** X13: an empty project name.  With the empty project name the root folder
    cannot be created, the error is printed, and the walk goes on with the
    empty current path: the entries of a well-named tree are put directly in
    the working directory. *)
Theorem empty_project_name_uses_working_directory
    (items : list (pystr * json)) (w : world) :
  well_named (JObject items) = true ->
  fresh_at cwd (List.map fst items) (w_fs w) ->
  let out := create_folder_structure cwd [] (JObject items) code_blocks w in
  (exists rest, w_console (fst out) = w_console w ++ ProjectFolderError [] :: rest)
  /\ placed code_blocks cwd items (w_fs w) (w_fs (fst out)).
Proof.
  intros Hw Fr. cbn zeta. rewrite create_folder_structure_eq. cbn zeta.
  cbn [FS.makedirs fst snd].
  set (w1 := World (w_fs w) _ _). split.
  - assert (G : forall tree current_path w',
      exists rest, w_console (fst (walk_tree current_path tree code_blocks w'))
                   = w_console w' ++ rest).
    { induction tree as [its IH|v Hv] using json_tree_ind.
      2: { intros cp w'. rewrite walk_tree_not_dict by exact Hv.
           exists []. cbn. rewrite app_nil_r. reflexivity. }
      induction IH as [|[key value] rest Hvalue _ IHrest]; intros cp w'.
      - exists []. cbn. rewrite app_nil_r. reflexivity.
      - rewrite walk_tree_cons. cbn zeta. unfold bind at 1. cbn [snd] in Hvalue.
        match goal with |- context [match ?e w' with _ => _ end] =>
          assert (E : exists rest1, w_console (fst (e w')) = w_console w' ++ rest1)
        end.
        { destruct value;
            try (rewrite create_file_eq;
                 destruct (next_code key code_blocks) as [code|]; [|eexists; reflexivity];
                 destruct (truthy code); [|eexists; reflexivity];
                 destruct (FS.write_file _ _ _ _); eexists; reflexivity).
          rewrite create_folder_eq. cbn zeta.
          destruct (snd (FS.makedirs _ _ _)); [|eexists; reflexivity].
          match goal with |- context [walk_tree ?p ?t _ ?ww] =>
            destruct (Hvalue p ww) as (r1 & ->)
          end.
          cbn [w_console]. rewrite <- app_assoc. eexists. reflexivity. }
        destruct E as (rest1 & E).
        match goal with |- context [match ?e w' with _ => _ end] =>
          destruct (e w') as [wa [[]|e'|]]
        end; cbn [fst] in *; try (eexists; exact E).
        destruct (IHrest cp wa) as (rest2 & ->). rewrite E, <- app_assoc.
        eexists. reflexivity. }
    destruct (G (JObject items) [] w1) as (rest & ->).
    unfold w1. cbn [w_console]. rewrite <- app_assoc. eexists. reflexivity.
  - exact (walk_tree_placed (JObject items) Hw items eq_refl [] cwd w1
             (resolves_cwd (w_fs w)) Fr).
Qed.

(** X14: a key that is an absolute path.  For an entry that is not a dict and
    whose key is a separator followed by a plain name, with code that is found
    and not empty, the file is written at that name in the root of the file
    system, whatever the current path and the working directory are; the walk
    then goes on. *)
Theorem absolute_key_leaves_project
    (current_path name code : pystr) (value : json) (rest : list (pystr * json))
    (w : world) :
  is_dict value = false ->
  plain_name name = true ->
  next_code (FS.sep :: name) code_blocks = Some code ->
  code <> [] ->
  w_fs w !! [name] <> Some Dir ->
  walk_tree current_path (JObject ((FS.sep :: name, value) :: rest)) code_blocks w
  = walk_tree current_path (JObject rest) code_blocks
      (World (<[[name] := File code]> (w_fs w))
         (w_console w ++ [FileCreated (FS.sep :: name)]) (w_calls w)).
Proof.
  intros D Hn N Hc Hd. destruct (plain_name_inv name Hn) as [Hs Hcl].
  rewrite walk_tree_cons. cbn zeta.
  assert (J : FS.join current_path (FS.sep :: name) = FS.sep :: name).
  { unfold FS.join. cbn [startswith]. rewrite N.eqb_refl. reflexivity. }
  rewrite J. unfold bind.
  assert (E : create_file cwd (FS.sep :: name) (FS.sep :: name) code_blocks w
              = (World (<[[name] := File code]> (w_fs w))
                   (w_console w ++ [FileCreated (FS.sep :: name)]) (w_calls w), Ret tt)).
  { rewrite create_file_eq, N. destruct code as [|c code]; [contradiction|].
    cbn [truthy]. unfold FS.write_file, FS.start_of.
    cbn [startswith split_on]. rewrite !N.eqb_refl. cbn [andb].
    rewrite (split_on_plain _ Hs).
    cbn [removelast List.last FS.walk]. rewrite classify_empty, Hcl. cbn [app].
    destruct (w_fs w !! [name]) as [[|content]|]; [contradiction|reflexivity|reflexivity]. }
  destruct value; try discriminate; rewrite E; reflexivity.
Qed.

End PlaceFacts.

(** ** The exchange log *)

Section LogFacts.

Context (cwd : list pystr).

Lemma contains_refl (s : pystr) : contains s s = true.
Proof.
  pose proof (contains_intro s [] []) as H. rewrite app_nil_r in H. exact H.
Qed.

Lemma contains_app_l (sub a b : pystr) :
  contains sub a = true -> contains sub (a ++ b) = true.
Proof.
  intros H. apply contains_inv in H as (x & y & ->).
  rewrite <- !app_assoc. apply contains_intro.
Qed.

Lemma render_exchanges_contains (prompt result : pystr) exchanges : forall i,
  In (prompt, result) exchanges ->
  contains prompt (render_exchanges i exchanges) = true
  /\ contains result (render_exchanges i exchanges) = true.
Proof.
  induction exchanges as [|[p r] exchanges IH]; intros i Hin; [destruct Hin|].
  cbn [render_exchanges]. destruct Hin as [[= -> ->]|Hin].
  - split; repeat first [apply contains_prefix | apply contains_app_r].
  - destruct (IH (S i) Hin) as [H1 H2].
    split; rewrite !app_assoc; apply contains_app_r; [exact H1|exact H2].
Qed.

(** X15: nothing is left out of the exchange log.  The text of the log
    contains the objective, the prompt and the result of every exchange, and
    the refined output. *)
Theorem exchange_log_is_complete
    (objective refined_output : pystr) (task_exchanges : list (pystr * pystr)) :
  let log := exchange_log_of objective task_exchanges refined_output in
  contains objective log = true
  /\ contains refined_output log = true
  /\ forall prompt result,
       In (prompt, result) task_exchanges ->
       contains prompt log = true /\ contains result log = true.
Proof.
  cbn zeta. unfold exchange_log_of. split; [|split].
  - apply contains_app_r. apply contains_prefix.
  - repeat first [apply contains_refl | apply contains_app_r].
  - intros prompt result Hin.
    destruct (render_exchanges_contains prompt result task_exchanges 1 Hin) as [H1 H2].
    split; do 9 apply contains_app_r; apply contains_app_l; assumption.
Qed.

(** X16: the file of the exchange log.  Its name is the timestamp, an
    underscore, the first 25 characters of the sanitized objective and [.md],
    so it is never longer than the timestamp plus 29 characters; when the file
    can be written it holds the log and the name is printed, otherwise the
    script ends with an [OSError]. *)
Theorem exchange_log_file
    (objective sanitized_objective timestamp : pystr)
    (task_exchanges : list (pystr * pystr)) (refined_output : pystr) (w : world) :
  let filename := timestamp ++ str "_" ++ take 25 sanitized_objective ++ str ".md" in
  let log := exchange_log_of objective task_exchanges refined_output in
  length filename <= length timestamp + 29
  /\ write_exchange_log cwd objective sanitized_objective timestamp task_exchanges
       refined_output w
     = match FS.write_file cwd filename log (w_fs w) with
       | Some fs' =>
           (World fs'
              (w_console w ++ [RefinedFinalOutput refined_output; ExchangeLogSaved filename])
              (w_calls w),
            Ret tt)
       | None =>
           (World (w_fs w) (w_console w ++ [RefinedFinalOutput refined_output]) (w_calls w),
            Raise OSError)
       end.
Proof.
  cbn zeta. split.
  - rewrite !length_app, length_take.
    change (length (str "_")) with 1. change (length (str ".md")) with 3. lia.
  - unfold write_exchange_log.
    replace (if Nat.ltb 25 (length sanitized_objective)
             then take 25 sanitized_objective else sanitized_objective)
      with (take 25 sanitized_objective).
    + unfold bind, console_print, open_write, raise. cbn [w_fs w_console w_calls].
      destruct (FS.write_file _ _ _ _); [|reflexivity].
      cbn [w_fs w_console w_calls]. rewrite <- app_assoc. reflexivity.
    + destruct (Nat.ltb_spec 25 (length sanitized_objective)); [reflexivity|].
      apply take_ge. lia.
Qed.

End LogFacts.

(** ** Start-up *)

Section StartupFacts.

(** X17: the models at start-up.  After the check, the service has the models
    it had and every model of the table; a model it had is never pulled, and a
    model it lacked is pulled exactly once, also when several roles name
    it. *)
Theorem check_and_pull_models_pulls_missing_once
    (models : list (pystr * pystr)) (installed : gset pystr) :
  let r := check_and_pull_models models installed in
  fst r = installed ∪ list_to_set (List.map snd models)
  /\ NoDup (pulled (snd r))
  /\ forall m, In m (pulled (snd r)) <-> (In m (List.map snd models) /\ m ∉ installed).
Proof.
  revert installed. induction models as [|[name id] models IH]; intros installed; cbn zeta.
  - cbn. split; [set_solver|]. split; [constructor|]. intros m. tauto.
  - cbn [check_and_pull_models List.map snd].
    destruct (decide (id ∈ installed)) as [Hin|Hout].
    + destruct (IH installed) as (E & ND & P). cbn zeta in *.
      cbn [fst snd pulled flat_map app]. fold (pulled (snd (check_and_pull_models models installed))).
      split; [rewrite E; set_solver|]. split; [exact ND|].
      intros m. rewrite P. cbn [In]. split; [tauto|].
      intros [[->|H] Hm]; [contradiction|tauto].
    + destruct (IH ({[id]} ∪ installed)) as (E & ND & P). cbn zeta in *.
      cbn [fst snd pulled flat_map app].
      fold (pulled (snd (check_and_pull_models models ({[id]} ∪ installed)))).
      split; [rewrite E; set_solver|]. split.
      * apply NoDup_cons. split; [|exact ND].
        rewrite list_elem_of_In, P. intros [_ H]. apply H. set_solver.
      * intros m. cbn [In]. rewrite P. split.
        -- intros [<-|[H1 H2]]; [auto|]. split; [auto|]. set_solver.
        -- intros [[<-|H1] H2]; [auto|].
           destruct (decide (id = m)) as [->|Hne]; [auto|].
           right. split; [exact H1|]. set_solver.
Qed.

End StartupFacts.

(** ** Concrete runs *)

Section FurtherRuns.

Import Examples MoreExamples.

(** The sub-agent on two long replies followed by a short one. *)
Lemma haiku_continuation_chain_witness :
  snd (haiku_sub_agent three_replies subagent_model 3 (str "task") [] false w0)
  = Ret (List.concat [long_reply; long_reply; str "tail"]).
Proof.
  destruct (haiku_continuation_chain three_replies subagent_model (str "task") [] w0
              [long_reply; long_reply] (str "tail") 3)
    as (w' & E & _).
  - vm_compute. repeat split.
  - repeat (constructor; [apply Nat.leb_le; vm_compute; reflexivity|]). constructor.
  - apply Nat.ltb_lt. vm_compute. reflexivity.
  - apply le_n.
  - rewrite E. reflexivity.
Defined.

(** The sub-agent with a service that always answers with a long text. *)
Lemma haiku_unbounded_continuation_witness :
  snd (haiku_sub_agent always_long subagent_model 5 (str "task") [] false w0) = OutOfFuel.
Proof.
  apply (haiku_unbounded_continuation always_long subagent_model).
  intros calls content. apply Nat.leb_le. vm_compute. reflexivity.
Defined.

(** The refiner on two long replies followed by a short one. *)
Lemma refine_continuation_chain_witness :
  List.map c_content
    (w_calls (fst (opus_refine three_replies refiner_model 3 (str "objective")
                     [str "result"] (str "12-00-00") (str "objective") false w0)))
  = repeat (refine_prompt (str "objective") [str "result"]) 3.
Proof.
  destruct (refine_continuation_chain three_replies refiner_model (str "objective")
              [str "result"] (str "12-00-00") (str "objective") false w0
              [long_reply; long_reply] (str "tail") 3)
    as (w' & E & C & _).
  - vm_compute. repeat split.
  - repeat (constructor; [apply Nat.leb_le; vm_compute; reflexivity|]). constructor.
  - apply Nat.ltb_lt. vm_compute. reflexivity.
  - apply le_n.
  - rewrite E. cbn [fst]. rewrite C. reflexivity.
Defined.

(** The run of one sub-task without seed content. *)
Lemma loop_without_seed_witness :
  List.map fst (task_exchanges one_step_vars) = [str "step one"].
Proof.
  destruct (loop_without_seed one_step orchestrator_model subagent_model 2
              (str "objective") None ∅ (fst one_step_run) (str "done") one_step_vars)
    as (E & _).
  - reflexivity.
  - vm_compute. reflexivity.
  - rewrite E. vm_compute. reflexivity.
Defined.

(** The script with a service that always answers with a long text. *)
Lemma nothing_written_before_refinement_witness :
  w_fs (fst (main always_long orchestrator_model subagent_model refiner_model []
               decoder no_code_blocks 2 (str "objective") None (str "objective")
               (str "12-00-00") project_world))
  = w_fs project_world.
Proof.
  apply (nothing_written_before_refinement always_long orchestrator_model subagent_model
           refiner_model [] decoder no_code_blocks 2 (str "objective") None
           (str "objective") (str "12-00-00") project_world).
  vm_compute. reflexivity.
Defined.

(** A refined output with an empty dict between the tags. *)
Lemma folder_structure_round_trip_witness :
  extract_folder_structure decoder
    (greeting ++ OPEN_TAG ++ padded_tree ++ CLOSE_TAG ++ farewell) w0
  = (w0, Ret (JObject [])).
Proof.
  destruct (folder_structure_round_trip greeting padded_tree farewell) as [_ H].
  - repeat (constructor; [discriminate|]). constructor.
  - repeat (constructor; [discriminate|]). constructor.
  - apply H. vm_compute. reflexivity.
Defined.

(** A refined output with a project name and a tree. *)
Lemma project_name_round_trip_witness :
  project_name_of (str "objective")
    (greeting ++ str "Project Name: " ++ padded_name ++ (nl ++ OPEN_TAG))
  = str "demo".
Proof.
  rewrite (project_name_round_trip greeting padded_name (nl ++ OPEN_TAG) (str "objective")).
  - vm_compute. reflexivity.
  - repeat (constructor; [discriminate|]). constructor.
  - repeat (constructor; [discriminate|]). constructor.
  - right. reflexivity.
Defined.

(** A refined output without header and tags. *)
Lemma missing_markers_fall_back_witness :
  project_name_of (str "objective") no_markers = str "objective"
  /\ extract_folder_structure decoder no_markers w0 = (w0, Ret (JObject [])).
Proof.
  destruct (missing_markers_fall_back no_markers) as (H1 & H2 & _).
  split.
  - apply H1. vm_compute. reflexivity.
  - apply H2. vm_compute. reflexivity.
Defined.

(** The small tree in an empty file system. *)
Lemma fresh_project_materialized_witness :
  materialize [] project small_tree small_code ∅ !! [project; str "src"; str "main.py"]
  = Some (File (str "print(1)"))
  /\ materialize [] project small_tree small_code ∅ !! [project; str "docs"] = None.
Proof.
  destruct (fresh_project_materialized [] small_code project small_items ∅) as [H _].
  - reflexivity.
  - reflexivity.
  - intros rel. apply lookup_empty.
  - split.
    + exact (H [str "src"; str "main.py"]).
    + exact (H [str "docs"]).
Defined.

(** The small tree with the empty project name. *)
Lemma empty_project_name_uses_working_directory_witness :
  w_fs (fst (create_folder_structure [] [] small_tree small_code w0)) !! [str "README.md"]
  = Some (File (str "# demo")).
Proof.
  destruct (empty_project_name_uses_working_directory [] small_code small_items w0)
    as [_ [H _]].
  - reflexivity.
  - intros k rel _. apply lookup_empty.
  - apply (H (str "README.md") []). right. left. reflexivity.
Defined.

(** A file entry whose key is an absolute path. *)
Lemma absolute_key_leaves_project_witness :
  w_fs (fst (create_folders_and_files [] project
               (JObject [(FS.sep :: absolute_name, JNull)]) absolute_code project_world))
    !! [absolute_name]
  = Some (File (str "x")).
Proof.
  rewrite (absolute_key_leaves_project [] absolute_code project absolute_name (str "x")
             JNull [] project_world).
  - vm_compute. reflexivity.
  - reflexivity.
  - reflexivity.
  - vm_compute. reflexivity.
  - discriminate.
  - vm_compute. discriminate.
Defined.

End FurtherRuns.
